(** * MistEthereumProvider: a shallow embedding and its verified properties

    Source: packages/web3-providers/src/providers/MistEthereumProvider.js

    The provider is a thin adapter between the JSON-RPC modules of web3.js and
    a transport handed in by Mist (an event emitter with [send] and
    [isConnected]).  The embedding below follows the class method by method:
    JavaScript values are a small inductive type, function objects carry their
    identity, the mutable state reachable from the provider is one record that
    is threaded through a state monad, and every call that leaves the class
    (to the transport, the superclass, the mapper, the validator, a method
    descriptor, a promise capability) is appended to a call log. *)

From Stdlib Require Import ZArith.
From stdpp Require Import gmap strings list.

Local Open Scope string_scope.
Local Open Scope list_scope.
Set Warnings "-register-all".

(** ** JavaScript values *)

(** The fragment of the value universe that travels through the provider:
    primitives, plain objects, arrays and [Error] instances.  Numbers are kept
    as integers, the provider never computes with them. *)
Inductive value : Type :=
| VUndefined
| VNull
| VBool (b : bool)
| VNum (n : Z)
| VStr (s : string)
| VObject (fields : list (string * value))
| VArray (items : list value)
| VError (name message : string).

(** [ToBoolean], as used by [!error]. *)
Definition truthy (v : value) : bool :=
  match v with
  | VUndefined | VNull => false
  | VBool b => b
  | VNum n => negb (n =? 0)%Z
  | VStr s => negb (String.eqb s "")
  | VObject _ | VArray _ | VError _ _ => true
  end.

(** [v instanceof Error]. *)
Definition instanceof_Error (v : value) : bool :=
  match v with
  | VError _ _ => true
  | _ => false
  end.

(** [v === s] for a primitive string [s]: strict equality never coerces. *)
Definition strict_eq_string (v : value) (s : string) : bool :=
  match v with
  | VStr s' => String.eqb s' s
  | _ => false
  end.

(** Own data property of a plain object; [undefined] when absent. *)
Fixpoint own_property (fields : list (string * value)) (key : string) : value :=
  match fields with
  | [] => VUndefined
  | (k, v) :: rest => if String.eqb k key then v else own_property rest key
  end.

(** The two property names the provider reads off foreign values.  Neither is
    defined on [Object.prototype], [Array.prototype], [Error.prototype] or on
    the wrappers of the primitives, so only own properties of plain objects
    can answer the read. *)
Inductive property : Type := prop_id | prop_result.

Definition property_key (p : property) : string :=
  match p with
  | prop_id => "id"
  | prop_result => "result"
  end.

(** Completion of an expression: a value, or a thrown value. *)
Inductive completion (A : Type) : Type :=
| Normal (a : A)
| Throw (thrown : value).
Arguments Normal {A} a.
Arguments Throw {A} thrown.

(** The [TypeError] raised by a property read on [undefined] or [null] (the
    message is the one V8 prints; only the class of the error matters). *)
Definition TypeError_cannot_read (p : property) (v : value) : value :=
  VError "TypeError"
    ("Cannot read property '" ++ property_key p ++ "' of " ++
     match v with VNull => "null" | _ => "undefined" end)%string.

(** [v.id] and [v.result]. *)
Definition get_property (v : value) (p : property) : completion value :=
  match v with
  | VUndefined | VNull => Throw (TypeError_cannot_read p v)
  | VObject fields => Normal (own_property fields (property_key p))
  | VBool _ | VNum _ | VStr _ | VArray _ | VError _ _ => Normal VUndefined
  end.

(** A JSON-RPC payload ([@param {Object} payload]): the object built by the
    mapper for a single request, or the array built by [sendBatch]. *)
Inductive payload : Type :=
| PObject (fields : list (string * value))
| PArray (entries : list value).

(** [payload.id]: never throws, a payload is an object. *)
Definition payload_id (p : payload) : value :=
  match p with
  | PObject fields => own_property fields "id"
  | PArray _ => VUndefined
  end.

(** ** Function objects *)

(** The five handlers the provider inherits ([this.onMessage], ...). *)
Inductive handler : Type := onMessage | onError | onConnect | onReady | onClose.

(** A function object, up to identity.  [Method h] is the function stored in
    the property [this.h]; [Bound h n] is the [n]-th function object created by
    [this.h.bind(this)].  [bind] allocates a new object on every call, so a
    bound function is identical only to itself. *)
Inductive function : Type :=
| Method (h : handler)
| Bound (h : handler) (serial : nat).

(** The handler that runs when the function object is called. *)
Definition target (f : function) : handler :=
  match f with
  | Method h => h
  | Bound h _ => h
  end.

#[global] Instance handler_eq_dec : EqDecision handler.
Proof. solve_decision. Defined.

#[global] Instance function_eq_dec : EqDecision function.
Proof. solve_decision. Defined.

(** ** Promises *)

Inductive promise_state : Type :=
| Pending
| Fulfilled (v : value)
| Rejected (reason : value).

(** A promise, with the promises derived from it by the [then] of [send]
    (the only reaction the provider ever attaches). *)
Record promise : Type := {
  settled : promise_state;
  derived : list nat
}.

(** ** Method descriptors *)

(** The two fields of an [AbstractMethod] that [sendBatch] reads. *)
Record descriptor : Type := {
  rpcMethod : string;
  parameters : list value
}.

(** ** Collaborators

    Everything the class imports or inherits and whose code lives elsewhere.
    The provider is verified for every choice of them. *)
Class Collaborators : Type := {
  (** State of the event emitter the provider itself is (its superclass). *)
  emitter_state : Type;
  (** [super.removeAllListeners(event)], acting on that emitter. *)
  super_removeAllListeners : value -> emitter_state -> emitter_state;
  (** The category tokens defined by the superclass. *)
  SOCKET_MESSAGE : string;
  SOCKET_ERROR : string;
  SOCKET_CONNECT : string;
  SOCKET_READY : string;
  SOCKET_CLOSE : string;
  (** [JsonRpcResponseValidator.validate(response)]. *)
  validate : value -> value;
  (** [JsonRpcMapper.toPayload(method, parameters)]: returns the fields of the
      request object; the mapper keeps state of its own to number requests. *)
  mapper_state : Type;
  toPayload : string -> list value -> mapper_state ->
              list (string * value) * mapper_state;
  (** The module instance handed to [sendBatch]. *)
  module_instance : Type;
  (** [method.beforeExecution(moduleInstance)] for the descriptor stored at a
      reference: it may rewrite any descriptor. *)
  beforeExecution : nat -> module_instance -> (nat -> descriptor) -> (nat -> descriptor)
}.

Section Provider.

Context `{C : Collaborators}.

(** ** Calls that leave the class *)

Inductive call : Type :=
| CallOn (event : string) (listener : function)
| CallRemoveListener (event : string) (listener : function)
| CallIsConnected
| CallConnectionSend (p : payload) (callback : nat)
| CallSuperRemoveAllListeners (event : value)
| CallToPayload (method : string) (params : list value)
| CallValidate (response : value)
| CallBeforeExecution (method : nat) (m : module_instance)
| CallResolve (p : nat) (v : value)
| CallReject (p : nat) (reason : value).

(** ** The state reachable from a provider *)

Record world : Type := {
  (** the transport: listeners per event, in registration order *)
  listeners : gmap string (list function);
  (** the transport: what [isConnected()] reports at the moment *)
  transport_connected : bool;
  (** the transport: completion callbacks received through [send]; each
      closure captures its payload and the promise it settles *)
  callbacks : list (payload * nat);
  (** number of function objects created by [bind] so far *)
  bound_count : nat;
  (** the provider's own emitter (superclass) *)
  emitter : emitter_state;
  (** promises created so far; a promise is named by its index *)
  promises : list promise;
  (** the payload mapper's state *)
  mapper : mapper_state;
  (** method descriptors, by reference *)
  heap : nat -> descriptor;
  (** calls made so far, oldest first *)
  log : list call
}.

Definition set_listeners (f : gmap string (list function) -> gmap string (list function))
  (w : world) : world :=
  {| listeners := f (listeners w); transport_connected := transport_connected w;
     callbacks := callbacks w; bound_count := bound_count w; emitter := emitter w;
     promises := promises w; mapper := mapper w; heap := heap w; log := log w |}.

Definition set_transport_connected (b : bool) (w : world) : world :=
  {| listeners := listeners w; transport_connected := b;
     callbacks := callbacks w; bound_count := bound_count w; emitter := emitter w;
     promises := promises w; mapper := mapper w; heap := heap w; log := log w |}.

Definition set_callbacks (f : list (payload * nat) -> list (payload * nat))
  (w : world) : world :=
  {| listeners := listeners w; transport_connected := transport_connected w;
     callbacks := f (callbacks w); bound_count := bound_count w; emitter := emitter w;
     promises := promises w; mapper := mapper w; heap := heap w; log := log w |}.

Definition set_bound_count (n : nat) (w : world) : world :=
  {| listeners := listeners w; transport_connected := transport_connected w;
     callbacks := callbacks w; bound_count := n; emitter := emitter w;
     promises := promises w; mapper := mapper w; heap := heap w; log := log w |}.

Definition set_emitter (f : emitter_state -> emitter_state) (w : world) : world :=
  {| listeners := listeners w; transport_connected := transport_connected w;
     callbacks := callbacks w; bound_count := bound_count w; emitter := f (emitter w);
     promises := promises w; mapper := mapper w; heap := heap w; log := log w |}.

Definition set_promises (f : list promise -> list promise) (w : world) : world :=
  {| listeners := listeners w; transport_connected := transport_connected w;
     callbacks := callbacks w; bound_count := bound_count w; emitter := emitter w;
     promises := f (promises w); mapper := mapper w; heap := heap w; log := log w |}.

Definition set_mapper (m : mapper_state) (w : world) : world :=
  {| listeners := listeners w; transport_connected := transport_connected w;
     callbacks := callbacks w; bound_count := bound_count w; emitter := emitter w;
     promises := promises w; mapper := m; heap := heap w; log := log w |}.

Definition set_heap (f : (nat -> descriptor) -> (nat -> descriptor)) (w : world) : world :=
  {| listeners := listeners w; transport_connected := transport_connected w;
     callbacks := callbacks w; bound_count := bound_count w; emitter := emitter w;
     promises := promises w; mapper := mapper w; heap := f (heap w); log := log w |}.

Definition record (c : call) (w : world) : world :=
  {| listeners := listeners w; transport_connected := transport_connected w;
     callbacks := callbacks w; bound_count := bound_count w; emitter := emitter w;
     promises := promises w; mapper := mapper w; heap := heap w; log := log w ++ [c] |}.

(** ** The state monad of the embedding *)

Definition M (A : Type) : Type := world -> A * world.

Definition ret {A} (a : A) : M A := fun w => (a, w).

Definition bind {A B} (m : M A) (k : A -> M B) : M B :=
  fun w => let (a, w') := m w in k a w'.

Definition modify (f : world -> world) : M unit := fun w => (tt, f w).

Definition exec {A} (m : M A) (w : world) : world := snd (m w).
Definition eval {A} (m : M A) (w : world) : A := fst (m w).

Notation "x <- m ;; k" := (bind m (fun x => k))
  (at level 100, m at next level, right associativity).
Notation "m ;; k" := (bind m (fun _ => k))
  (at level 100, right associativity).

(** ** The transport handle

    The transport is handed to the constructor and is no part of the
    repository; the provider uses its [on], [removeListener], [send] and
    [isConnected].  It is taken to be an event emitter in the style of
    Node's: [on] appends the listener, [removeListener] removes the most
    recently added listener that is identical ([===]) to its argument and
    does nothing when there is none, [emit] calls the listeners of the event
    in registration order.  The properties below use of [removeListener] only
    that it leaves the listeners alone when none is identical to its
    argument. *)

Definition listeners_of (event : string) (w : world) : list function :=
  default [] (listeners w !! event).

Fixpoint remove_first (f : function) (l : list function) : list function :=
  match l with
  | [] => []
  | g :: rest => if decide (g = f) then rest else g :: remove_first f rest
  end.

Definition remove_last (f : function) (l : list function) : list function :=
  rev (remove_first f (rev l)).

(** [this.connection.on(event, listener)] *)
Definition connection_on (event : string) (f : function) : M unit :=
  modify (record (CallOn event f)) ;;
  modify (fun w => set_listeners (insert event (listeners_of event w ++ [f])) w).

(** [this.connection.removeListener(event, listener)] *)
Definition connection_removeListener (event : string) (f : function) : M unit :=
  modify (record (CallRemoveListener event f)) ;;
  modify (fun w => set_listeners (insert event (remove_last f (listeners_of event w))) w).

(** [this.connection.isConnected()] *)
Definition connection_isConnected : M bool :=
  modify (record CallIsConnected) ;;
  fun w => (transport_connected w, w).

(** The handlers that run when the transport emits [event]. *)
Definition emit_invokes (event : string) (w : world) : list handler :=
  map target (listeners_of event w).

(** ** MistEthereumProvider *)

(** [this.h.bind(this)]: a new function object. *)
Definition bind_this (h : handler) : M function :=
  fun w => (Bound h (bound_count w), set_bound_count (S (bound_count w)) w).

(** [registerEventListeners()] *)
Definition registerEventListeners : M unit :=
  f <- bind_this onMessage ;; connection_on "data" f ;;
  f <- bind_this onError ;; connection_on "error" f ;;
  f <- bind_this onConnect ;; connection_on "connect" f ;;
  f <- bind_this onReady ;; connection_on "connect" f ;;
  f <- bind_this onClose ;; connection_on "end" f.

(** The logical categories a token can name. *)
Inductive category : Type :=
| MessageCategory | ErrorCategory | ConnectCategory | ReadyCategory | CloseCategory.

(** The [switch (event)]: cases are tried in source order with [===]. *)
Definition category_of (event : value) : option category :=
  if strict_eq_string event SOCKET_MESSAGE then Some MessageCategory
  else if strict_eq_string event SOCKET_ERROR then Some ErrorCategory
  else if strict_eq_string event SOCKET_CONNECT then Some ConnectCategory
  else if strict_eq_string event SOCKET_READY then Some ReadyCategory
  else if strict_eq_string event SOCKET_CLOSE then Some CloseCategory
  else None.

(** The body of each [case]. *)
Definition remove_category_listener (c : category) : M unit :=
  match c with
  | MessageCategory => connection_removeListener "data" (Method onMessage)
  | ErrorCategory => connection_removeListener "error" (Method onError)
  | ConnectCategory => connection_removeListener "connect" (Method onConnect)
  | ReadyCategory => connection_removeListener "connect" (Method onConnect)
  | CloseCategory => connection_removeListener "end" (Method onClose)
  end.

(** [super.removeAllListeners(event)] *)
Definition call_super_removeAllListeners (event : value) : M unit :=
  modify (record (CallSuperRemoveAllListeners event)) ;;
  modify (set_emitter (super_removeAllListeners event)).

(** [removeAllListeners(event)] *)
Definition removeAllListeners (event : value) : M unit :=
  match category_of event with
  | Some c => remove_category_listener c
  | None => ret tt
  end ;;
  call_super_removeAllListeners event.

(** The transport holds functions made by [bind] only, none of the methods
    themselves. *)
Definition only_bound (w : world) : Prop :=
  forall ev f, f ∈ listeners_of ev w -> forall h, f <> Method h.

(** The five tokens the [switch] recognises. *)
Definition category_tokens : list string :=
  [SOCKET_MESSAGE; SOCKET_ERROR; SOCKET_CONNECT; SOCKET_READY; SOCKET_CLOSE].

(** The calls [removeAllListeners(event)] makes, in order. *)
Definition removeAllListeners_calls (event : value) : list call :=
  match category_of event with
  | Some MessageCategory => [CallRemoveListener "data" (Method onMessage)]
  | Some ErrorCategory => [CallRemoveListener "error" (Method onError)]
  | Some ConnectCategory => [CallRemoveListener "connect" (Method onConnect)]
  | Some ReadyCategory => [CallRemoveListener "connect" (Method onConnect)]
  | Some CloseCategory => [CallRemoveListener "end" (Method onClose)]
  | None => []
  end ++ [CallSuperRemoveAllListeners event].

(** [disconnect()] *)
Definition disconnect : M bool := ret true.

(** [get connected()] *)
Definition connected : M bool := connection_isConnected.

(** *** Promises created by the provider *)

Definition state_of (p : nat) (w : world) : option promise_state :=
  settled <$> promises w !! p.

(** [new Promise(...)]: the new promise is pending. *)
Definition new_promise : M nat :=
  fun w => (length (promises w),
            set_promises (fun ps => ps ++ [{| settled := Pending; derived := [] |}]) w).

(** A promise changes state once; later attempts are ignored. *)
Definition settle_with (s : promise_state) (pr : promise) : promise :=
  match settled pr with
  | Pending => {| settled := s; derived := derived pr |}
  | _ => pr
  end.

Definition settle (p : nat) (s : promise_state) : M unit :=
  modify (set_promises (alter (settle_with s) p)).

Definition add_derived (p d : nat) : M unit :=
  modify (set_promises
            (alter (fun pr => {| settled := settled pr; derived := derived pr ++ [d] |}) p)).

Fixpoint for_each {A} (l : list A) (body : A -> M unit) : M unit :=
  match l with
  | [] => ret tt
  | a :: rest => body a ;; for_each rest body
  end.

(** [JsonRpcResponseValidator.validate(response)] *)
Definition call_validate (response : value) : M value :=
  modify (record (CallValidate response)) ;;
  ret (validate response).

(** The arrow function given to [then] in [send]. *)
Definition send_onFulfilled (response : value) : M (completion value) :=
  validationResult <- call_validate response ;;
  if instanceof_Error validationResult
  then ret (Throw validationResult)
  else ret (get_property response prop_result).

(** What the promise returned by [then] becomes once the promise it was
    derived from is fulfilled with [response]. *)
Definition send_outcome (response : value) : promise_state :=
  if instanceof_Error (validate response)
  then Rejected (validate response)
  else match get_property response prop_result with
       | Normal v => Fulfilled v
       | Throw e => Rejected e
       end.

(** The promise returned by [then] follows the completion of the arrow
    function, or the rejection of the promise it was derived from. *)
Definition react_fulfilled (response : value) (d : nat) : M unit :=
  c <- send_onFulfilled response ;;
  match c with
  | Normal v => settle d (Fulfilled v)
  | Throw e => settle d (Rejected e)
  end.

Definition react_rejected (reason : value) (d : nat) : M unit :=
  settle d (Rejected reason).

Definition derived_of (p : nat) (w : world) : list nat :=
  match promises w !! p with
  | Some pr => derived pr
  | None => []
  end.

(** The [resolve] and [reject] functions of promise [p].  The reactions are
    run as part of the same step (the state after the microtasks drained). *)
Definition resolve (p : nat) (v : value) : M unit :=
  modify (record (CallResolve p v)) ;;
  fun w =>
    match state_of p w with
    | Some Pending =>
        (settle p (Fulfilled v) ;;
         for_each (derived_of p w) (react_fulfilled v)) w
    | _ => (tt, w)
    end.

Definition reject (p : nat) (reason : value) : M unit :=
  modify (record (CallReject p reason)) ;;
  fun w =>
    match state_of p w with
    | Some Pending =>
        (settle p (Rejected reason) ;;
         for_each (derived_of p w) (react_rejected reason)) w
    | _ => (tt, w)
    end.

(** The reaction of the derived promise [d] is run at once when [p] is
    settled already, and kept with [p] otherwise. *)
Definition attach_reaction (p d : nat) : M unit :=
  fun w =>
    match state_of p w with
    | Some (Fulfilled v) => react_fulfilled v d w
    | Some (Rejected e) => react_rejected e d w
    | _ => add_derived p d w
    end.

(** [p.then(response => ...)] as written in [send]. *)
Definition then_send (p : nat) : M nat :=
  d <- new_promise ;;
  attach_reaction p d ;;
  ret d.

(** *** Sending *)

(** The completion callback handed to [this.connection.send] by
    [sendPayload(pl)], for the promise [p] created there. *)
Definition sendPayload_callback (pl : payload) (p : nat) (error response : value) : M unit :=
  removeAllListeners (payload_id pl) ;;
  if negb (truthy error)
  then resolve p response
  else reject p error.

(** [this.connection.send(payload, callback)]: the transport keeps the
    callback. *)
Definition connection_send (pl : payload) (p : nat) : M unit :=
  modify (record (CallConnectionSend pl p)) ;;
  modify (set_callbacks (fun cs => cs ++ [(pl, p)])).

(** The transport invokes the [k]-th callback it was given. *)
Definition transport_calls_back (k : nat) (error response : value) : M unit :=
  fun w =>
    match callbacks w !! k with
    | Some (pl, p) => sendPayload_callback pl p error response w
    | None => (tt, w)
    end.

(** The calls of [resolve] and [reject] of promise [p] among [calls]. *)
Definition settlements (p : nat) (calls : list call) : list call :=
  List.filter (fun c => match c with
                        | CallResolve q _ | CallReject q _ => Nat.eqb q p
                        | _ => false
                        end) calls.

(** [sendPayload(payload)] *)
Definition sendPayload (pl : payload) : M nat :=
  p <- new_promise ;;
  connection_send pl p ;;
  ret p.

(** [JsonRpcMapper.toPayload(method, parameters)] *)
Definition call_toPayload (method : string) (params : list value) : M (list (string * value)) :=
  modify (record (CallToPayload method params)) ;;
  fun w => let (fields, m) := toPayload method params (mapper w) in
           (fields, set_mapper m w).

(** [send(method, parameters)] *)
Definition send (method : string) (params : list value) : M nat :=
  fields <- call_toPayload method params ;;
  p <- sendPayload (PObject fields) ;;
  then_send p.

(** [method.beforeExecution(moduleInstance)] *)
Definition call_beforeExecution (method : nat) (m : module_instance) : M unit :=
  modify (record (CallBeforeExecution method m)) ;;
  modify (set_heap (beforeExecution method m)).

(** The [forEach] of [sendBatch]; [entries] is the array built so far. *)
Fixpoint sendBatch_forEach (methods : list nat) (m : module_instance)
  (entries : list value) : M (list value) :=
  match methods with
  | [] => ret entries
  | method :: rest =>
      call_beforeExecution method m ;;
      fields <- (fun w => call_toPayload (rpcMethod (heap w method))
                                         (parameters (heap w method)) w) ;;
      sendBatch_forEach rest m (entries ++ [VObject fields])
  end.

(** [sendBatch(methods, moduleInstance)] *)
Definition sendBatch (methods : list nat) (m : module_instance) : M nat :=
  entries <- sendBatch_forEach methods m [] ;;
  sendPayload (PArray entries).

(** *** Reading the call log of a batch *)

(** The [beforeExecution] calls among [calls]: descriptor and argument. *)
Definition hooks_called (calls : list call) : list (nat * module_instance) :=
  omap (fun c => match c with
                 | CallBeforeExecution method m => Some (method, m)
                 | _ => None
                 end) calls.

(** The arguments of the [toPayload] calls among [calls]. *)
Definition mapper_arguments (calls : list call) : list (string * list value) :=
  omap (fun c => match c with
                 | CallToPayload method params => Some (method, params)
                 | _ => None
                 end) calls.

Inductive call_kind : Type := HookCall | MapperCall | TransportSendCall | OtherCall.

Definition kind_of (c : call) : call_kind :=
  match c with
  | CallBeforeExecution _ _ => HookCall
  | CallToPayload _ _ => MapperCall
  | CallConnectionSend _ _ => TransportSendCall
  | _ => OtherCall
  end.

(** What the mapper returns on successive calls with [args]. *)
Fixpoint mapper_outputs (args : list (string * list value)) (ms : mapper_state) :
  list (list (string * value)) :=
  match args with
  | [] => []
  | (method, params) :: rest =>
      fst (toPayload method params ms) ::
      mapper_outputs rest (snd (toPayload method params ms))
  end.

(** The descriptors after the hooks of [methods] ran, first to last. *)
Definition run_hooks (methods : list nat) (m : module_instance)
  (h : nat -> descriptor) : nat -> descriptor :=
  fold_left (fun h' method => beforeExecution method m h') methods h.

(** The calls of the [forEach] over [methods], from descriptors [h]. *)
Fixpoint batch_calls (methods : list nat) (m : module_instance)
  (h : nat -> descriptor) : list call :=
  match methods with
  | [] => []
  | method :: rest =>
      let h' := beforeExecution method m h in
      CallBeforeExecution method m ::
      CallToPayload (rpcMethod (h' method)) (parameters (h' method)) ::
      batch_calls rest m h'
  end.

(** *** Sequences of calls on a provider *)

(** What can happen to a provider: a call of one of its methods, or the
    transport invoking a completion callback it was given. *)
Inductive operation : Type :=
| OpRegisterEventListeners
| OpRemoveAllListeners (event : value)
| OpDisconnect
| OpConnected
| OpSend (method : string) (params : list value)
| OpSendBatch (methods : list nat) (m : module_instance)
| OpSendPayload (pl : payload)
| OpTransportCallsBack (k : nat) (error response : value).

Definition perform (o : operation) : M unit :=
  match o with
  | OpRegisterEventListeners => registerEventListeners
  | OpRemoveAllListeners event => removeAllListeners event
  | OpDisconnect => disconnect ;; ret tt
  | OpConnected => connected ;; ret tt
  | OpSend method params => send method params ;; ret tt
  | OpSendBatch methods m => sendBatch methods m ;; ret tt
  | OpSendPayload pl => sendPayload pl ;; ret tt
  | OpTransportCallsBack k error response => transport_calls_back k error response
  end.

Definition perform_all (ops : list operation) : M unit := for_each ops perform.

(** The number of [registerEventListeners()] calls in a sequence. *)
Fixpoint registrations (ops : list operation) : nat :=
  match ops with
  | [] => 0
  | OpRegisterEventListeners :: rest => S (registrations rest)
  | _ :: rest => registrations rest
  end.

(** The handlers one [registerEventListeners()] binds to a transport event. *)
Definition registered_handlers (ev : string) : list handler :=
  if decide (ev = "data") then [onMessage]
  else if decide (ev = "error") then [onError]
  else if decide (ev = "connect") then [onConnect; onReady]
  else if decide (ev = "end") then [onClose]
  else [].

(** Everything in the state but the promises and the call log. *)
Definition outside_promises (w : world) :=
  (listeners w, transport_connected w, callbacks w, bound_count w,
   emitter w, mapper w, heap w).

(** The shape of the calls on the transport's listener registry: [on] with a
    function made by [bind], [removeListener] with one of the methods
    [onMessage], [onError], [onConnect], [onClose] on its event. *)
Definition listener_call_shape (c : call) : Prop :=
  match c with
  | CallOn _ f => exists h n, f = Bound h n
  | CallRemoveListener ev f =>
      (ev, f) ∈ [("data", Method onMessage); ("error", Method onError);
                 ("connect", Method onConnect); ("end", Method onClose)]
  | _ => True
  end.

End Provider.

Notation "x <- m ;; k" := (bind m (fun x => k))
  (at level 100, m at next level, right associativity).
Notation "m ;; k" := (bind m (fun _ => k))
  (at level 100, right associativity).

(** ** A concrete set of collaborators, to run the embedding *)

Module Demo.

(** A validator in the spirit of the JSON-RPC one: an object without an
    [error] member is accepted, everything else is an error. *)
Definition validator (response : value) : value :=
  match response with
  | VObject fields =>
      match own_property fields "error" with
      | VUndefined => VBool true
      | _ => VError "Error" "Node error"
      end
  | _ => VError "Error" "Validation error: Response should be of type Object"
  end.

(** A mapper that numbers the requests. *)
Definition number_requests (method : string) (params : list value) (next : nat) :
  list (string * value) * nat :=
  ([("jsonrpc", VStr "2.0"); ("id", VNum (Z.of_nat next));
    ("method", VStr method); ("params", VArray params)], S next).

(** A hook that completes the parameters with the module's default block. *)
Definition add_default_block (method : nat) (defaultBlock : string)
  (h : nat -> descriptor) : nat -> descriptor :=
  fun r => if decide (r = method)
           then {| rpcMethod := rpcMethod (h r);
                   parameters := parameters (h r) ++ [VStr defaultBlock] |}
           else h r.

(** The own emitter is the list of event names that still have listeners. *)
Definition forget_event (event : value) (names : list string) : list string :=
  filter (fun name => bool_decide (strict_eq_string event name = false)) names.

Definition collaborators (check : value -> value) : Collaborators :=
  {| emitter_state := list string;
     super_removeAllListeners := forget_event;
     SOCKET_MESSAGE := "socket_message";
     SOCKET_ERROR := "socket_error";
     SOCKET_CONNECT := "socket_connect";
     SOCKET_READY := "socket_ready";
     SOCKET_CLOSE := "socket_close";
     validate := check;
     mapper_state := nat;
     toPayload := number_requests;
     module_instance := string;
     beforeExecution := add_default_block |}.

Definition descriptors (r : nat) : descriptor :=
  match r with
  | 0 => {| rpcMethod := "eth_getBalance"; parameters := [VStr "0xabc"] |}
  | 1 => {| rpcMethod := "eth_getCode"; parameters := [VStr "0xdef"] |}
  | _ => {| rpcMethod := "eth_blockNumber"; parameters := [] |}
  end.

(** A provider right after construction, before any listener is bound. *)
Definition initial (check : value -> value) : @world (collaborators check) :=
  @Build_world (collaborators check)
    ∅ true [] 0 ["ready"; "connect"; "error"; "close"] [] 0 descriptors [].

Definition C : Collaborators := collaborators validator.

Definition w0 : @world C := initial validator.

(** A verdict that is never an [Error]. *)
Definition accept_all (response : value) : value := VBool true.

(** A verdict that is falsy and not an [Error]. *)
Definition answer_false (response : value) : value := VBool false.

Definition balance_request : payload :=
  PObject [("jsonrpc", VStr "2.0"); ("id", VNum 0);
           ("method", VStr "eth_getBalance"); ("params", VArray [VStr "0xabc"])].

Definition balance_response : value :=
  VObject [("id", VNum 0); ("result", VStr "0x10")].

Definition node_error_response : value :=
  VObject [("id", VNum 0); ("error", VObject [("code", VNum (-32000))])].

Definition connection_lost : value := VError "Error" "connection lost".

End Demo.

(** * Properties *)

Section ProviderProperties.

Context `{C : Collaborators}.

Implicit Types (w : world) (event : value) (ev : string) (pl : payload).

(** ** The monad *)

Lemma exec_bind {A B} (m : M A) (k : A -> M B) w :
  exec (x <- m ;; k x) w = exec (k (eval m w)) (exec m w).
Proof. unfold exec, eval, bind. destruct (m w); reflexivity. Qed.

Lemma eval_bind {A B} (m : M A) (k : A -> M B) w :
  eval (x <- m ;; k x) w = eval (k (eval m w)) (exec m w).
Proof. unfold exec, eval, bind. destruct (m w); reflexivity. Qed.

Lemma exec_modify f w : exec (modify f) w = f w.
Proof. reflexivity. Qed.

Lemma exec_ret {A} (a : A) w : exec (ret a) w = w.
Proof. reflexivity. Qed.

(** ** Listener registration *)

Lemma listeners_of_insert ev' ev l w :
  listeners_of ev' (set_listeners (insert ev l) w) =
  if decide (ev = ev') then l else listeners_of ev' w.
Proof.
  unfold listeners_of; simpl. rewrite lookup_insert.
  destruct (decide (ev = ev')); reflexivity.
Qed.

Lemma listeners_of_record ev c w :
  listeners_of ev (record c w) = listeners_of ev w.
Proof. reflexivity. Qed.

Lemma connection_on_listeners ev' ev f w :
  listeners_of ev' (exec (connection_on ev f) w) =
  if decide (ev = ev') then listeners_of ev w ++ [f] else listeners_of ev' w.
Proof.
  unfold connection_on. rewrite exec_bind, !exec_modify.
  rewrite listeners_of_insert. reflexivity.
Qed.

Lemma exec_bind_this h w :
  exec (bind_this h) w = set_bound_count (S (bound_count w)) w.
Proof. reflexivity. Qed.

Lemma eval_bind_this h w : eval (bind_this h) w = Bound h (bound_count w).
Proof. reflexivity. Qed.

Lemma listeners_of_set_bound_count ev n w :
  listeners_of ev (set_bound_count n w) = listeners_of ev w.
Proof. reflexivity. Qed.

Lemma bound_count_set_bound_count n w : bound_count (set_bound_count n w) = n.
Proof. reflexivity. Qed.

Lemma bound_count_connection_on ev f w :
  bound_count (exec (connection_on ev f) w) = bound_count w.
Proof. reflexivity. Qed.

Lemma log_connection_on ev f w :
  log (exec (connection_on ev f) w) = log w ++ [CallOn ev f].
Proof. reflexivity. Qed.

Lemma log_set_bound_count n w : log (set_bound_count n w) = log w.
Proof. reflexivity. Qed.

Create Rewrite HintDb provider.
Hint Rewrite @exec_bind @exec_bind_this @eval_bind_this @connection_on_listeners
  @listeners_of_set_bound_count @bound_count_set_bound_count
  @bound_count_connection_on @log_connection_on @log_set_bound_count : provider.

Lemma registerEventListeners_listeners ev w :
  listeners_of ev (exec registerEventListeners w) =
  listeners_of ev w ++
    (if decide (ev = "data") then [Bound onMessage (bound_count w)] else []) ++
    (if decide (ev = "error") then [Bound onError (1 + bound_count w)] else []) ++
    (if decide (ev = "connect")
     then [Bound onConnect (2 + bound_count w); Bound onReady (3 + bound_count w)] else []) ++
    (if decide (ev = "end") then [Bound onClose (4 + bound_count w)] else []).
Proof.
  unfold registerEventListeners. autorewrite with provider.
  repeat case_decide; subst; try congruence; simpl;
    rewrite ?app_nil_r, <- ?app_assoc; reflexivity.
Qed.

Lemma registerEventListeners_log w :
  log (exec registerEventListeners w) =
  log w ++ [CallOn "data" (Bound onMessage (bound_count w));
            CallOn "error" (Bound onError (1 + bound_count w));
            CallOn "connect" (Bound onConnect (2 + bound_count w));
            CallOn "connect" (Bound onReady (3 + bound_count w));
            CallOn "end" (Bound onClose (4 + bound_count w))].
Proof.
  unfold registerEventListeners. autorewrite with provider.
  rewrite <- !app_assoc. reflexivity.
Qed.

(** ** Listener removal *)

Lemma remove_first_absent f (l : list function) : f ∉ l -> remove_first f l = l.
Proof.
  induction l as [|g l IH]; intros Hf; simpl; [reflexivity|].
  apply not_elem_of_cons in Hf as [Hne Hl].
  destruct (decide (g = f)); [congruence|]. f_equal. auto.
Qed.

Lemma remove_last_absent f (l : list function) : f ∉ l -> remove_last f l = l.
Proof.
  intros Hf. unfold remove_last.
  rewrite remove_first_absent; [apply rev_involutive|].
  intros Hin. apply Hf. apply list_elem_of_In, in_rev, list_elem_of_In. exact Hin.
Qed.

Lemma connection_removeListener_listeners ev' ev f w :
  listeners_of ev' (exec (connection_removeListener ev f) w) =
  if decide (ev = ev') then remove_last f (listeners_of ev w) else listeners_of ev' w.
Proof.
  unfold connection_removeListener. rewrite exec_bind, !exec_modify.
  rewrite listeners_of_insert. reflexivity.
Qed.

Lemma connection_removeListener_method ev' ev h w :
  only_bound w ->
  listeners_of ev' (exec (connection_removeListener ev (Method h)) w) = listeners_of ev' w.
Proof.
  intros Hb. rewrite connection_removeListener_listeners.
  case_decide; [subst|reflexivity].
  apply remove_last_absent. intros Hin. exact (Hb _ _ Hin h eq_refl).
Qed.

Lemma call_super_listeners ev event w :
  listeners_of ev (exec (call_super_removeAllListeners event) w) = listeners_of ev w.
Proof. reflexivity. Qed.

Lemma removeAllListeners_only_bound ev event w :
  only_bound w ->
  listeners_of ev (exec (removeAllListeners event) w) = listeners_of ev w.
Proof.
  intros Hb. unfold removeAllListeners. rewrite exec_bind, call_super_listeners.
  destruct (category_of event) as [[]|]; simpl;
    try apply connection_removeListener_method; auto.
Qed.

Lemma removeAllListeners_log event w :
  log (exec (removeAllListeners event) w) = log w ++ removeAllListeners_calls event.
Proof.
  unfold removeAllListeners, removeAllListeners_calls.
  destruct (category_of event) as [[]|]; simpl; rewrite <- ?app_assoc; reflexivity.
Qed.

Lemma only_bound_registerEventListeners w :
  only_bound w -> only_bound (exec registerEventListeners w).
Proof.
  intros Hb ev f Hin h ->. rewrite registerEventListeners_listeners in Hin.
  apply elem_of_app in Hin as [Hin|Hin]; [exact (Hb _ _ Hin h eq_refl)|].
  repeat case_decide; simpl in Hin;
    repeat (apply elem_of_cons in Hin as [Hin|Hin]; [discriminate|]);
    apply elem_of_nil in Hin; exact Hin.
Qed.

Lemma only_bound_no_listeners w : only_bound (set_listeners (fun _ => ∅) w).
Proof.
  intros ev f. unfold listeners_of; simpl. rewrite lookup_empty. simpl. set_solver.
Qed.

Lemma strict_eq_string_true event t : strict_eq_string event t = true <-> event = VStr t.
Proof.
  destruct event; simpl; try (split; [discriminate|intros [=]]).
  rewrite String.eqb_eq. split; [intros ->; reflexivity|intros [= ->]; reflexivity].
Qed.

Lemma category_of_None event :
  category_of event = None <-> forall t, t ∈ category_tokens -> event <> VStr t.
Proof.
  unfold category_of, category_tokens. split.
  - intros Hc t Ht Heq. apply strict_eq_string_true in Heq.
    repeat (apply elem_of_cons in Ht as [->|Ht];
            [rewrite Heq in Hc;
             repeat (destruct (strict_eq_string _ _); try discriminate)|]).
    apply elem_of_nil in Ht. exact Ht.
  - intros Hne.
    assert (forall t, t ∈ [SOCKET_MESSAGE; SOCKET_ERROR; SOCKET_CONNECT;
                           SOCKET_READY; SOCKET_CLOSE] ->
                      strict_eq_string event t = false) as Hf.
    { intros t Ht. destruct (strict_eq_string event t) eqn:E; [|reflexivity].
      apply strict_eq_string_true in E. destruct (Hne _ Ht E). }
    rewrite !Hf by set_solver. reflexivity.
Qed.

(** C5: one call of [registerEventListeners()] makes five [on] calls and
    nothing else: [data] receives the message handler, [error] the error
    handler, [connect] two separate function objects (the connect handler, then
    the ready handler), [end] the close handler; every other transport event
    keeps the listeners it had. *)
Theorem registerEventListeners_binds_one_handler_per_category w :
  let n := bound_count w in
  let w' := exec registerEventListeners w in
  listeners_of "data" w' = listeners_of "data" w ++ [Bound onMessage n] /\
  listeners_of "error" w' = listeners_of "error" w ++ [Bound onError (1 + n)] /\
  listeners_of "connect" w' =
    listeners_of "connect" w ++ [Bound onConnect (2 + n); Bound onReady (3 + n)] /\
  listeners_of "end" w' = listeners_of "end" w ++ [Bound onClose (4 + n)] /\
  (forall ev, ev ∉ ["data"; "error"; "connect"; "end"] ->
              listeners_of ev w' = listeners_of ev w) /\
  log w' = log w ++ [CallOn "data" (Bound onMessage n);
                     CallOn "error" (Bound onError (1 + n));
                     CallOn "connect" (Bound onConnect (2 + n));
                     CallOn "connect" (Bound onReady (3 + n));
                     CallOn "end" (Bound onClose (4 + n))].
Proof.
  intros n w'. subst n w'.
  split; [|split; [|split; [|split; [|split]]]];
    try (rewrite registerEventListeners_listeners; reflexivity).
  - intros ev Hev. rewrite registerEventListeners_listeners.
    rewrite !not_elem_of_cons in Hev. destruct Hev as (? & ? & ? & ? & _).
    repeat case_decide; try congruence.
    rewrite !app_nil_r. reflexivity.
  - apply registerEventListeners_log.
Qed.

Lemma no_listeners ev w : listeners_of ev (set_listeners (fun _ => ∅) w) = [].
Proof. unfold listeners_of; simpl. rewrite lookup_empty. reflexivity. Qed.

Lemma emit_end_after_register w :
  emit_invokes "end" (exec registerEventListeners (set_listeners (fun _ => ∅) w)) = [onClose].
Proof.
  unfold emit_invokes. rewrite registerEventListeners_listeners, no_listeners.
  repeat case_decide; try congruence. reflexivity.
Qed.

Lemma removeAllListeners_emit ev event w :
  only_bound w ->
  emit_invokes ev (exec (removeAllListeners event) w) = emit_invokes ev w.
Proof.
  intros Hb. unfold emit_invokes. rewrite removeAllListeners_only_bound by exact Hb.
  reflexivity.
Qed.

(** C4: evaluation of the code on a transport without listeners.  After
    [registerEventListeners()], [removeAllListeners(token)] leaves the
    listeners of every transport event as they were, whatever the token: the
    function handed to [removeListener] is the unbound method, and the
    transport holds the functions made by [bind].  In particular, after
    [removeAllListeners(this.SOCKET_CLOSE)] an [end] event still runs the close
    handler. *)
Theorem removeAllListeners_after_register_removes_nothing w event :
  (forall ev,
     listeners_of ev (exec (removeAllListeners event)
                        (exec registerEventListeners (set_listeners (fun _ => ∅) w))) =
     listeners_of ev (exec registerEventListeners (set_listeners (fun _ => ∅) w))) /\
  emit_invokes "end" (exec registerEventListeners (set_listeners (fun _ => ∅) w)) = [onClose] /\
  emit_invokes "end" (exec (removeAllListeners (VStr SOCKET_CLOSE))
                        (exec registerEventListeners (set_listeners (fun _ => ∅) w))) = [onClose].
Proof.
  pose proof (only_bound_registerEventListeners _ (only_bound_no_listeners w)) as Hb.
  split; [|split].
  - intros ev. apply removeAllListeners_only_bound, Hb.
  - apply emit_end_after_register.
  - rewrite removeAllListeners_emit by exact Hb. apply emit_end_after_register.
Qed.

(** C7: for a token that is none of the five category tokens (a request id,
    for instance), [removeAllListeners(token)] returns normally, makes no call
    on the transport and leaves its listeners, its callbacks and its state as
    they were; the one call it makes is [super.removeAllListeners(token)],
    which acts on the provider's own emitter. *)
Theorem removeAllListeners_unrecognized_token event w :
  (forall t, t ∈ category_tokens -> event <> VStr t) ->
  let w' := exec (removeAllListeners event) w in
  removeAllListeners event w = (tt, w') /\
  listeners w' = listeners w /\
  callbacks w' = callbacks w /\
  transport_connected w' = transport_connected w /\
  log w' = log w ++ [CallSuperRemoveAllListeners event] /\
  emitter w' = super_removeAllListeners event (emitter w).
Proof.
  intros Hne. apply category_of_None in Hne.
  unfold exec, removeAllListeners. rewrite Hne.
  split; [|split; [|split; [|split; [|split]]]]; reflexivity.
Qed.

(** C8: [connected] returns what the transport's [isConnected()] reports at
    the moment of the read and keeps nothing: the read changes the state by
    the logged query only, and when the transport's report changes between two
    reads the second read returns the new report. *)
Theorem connected_reflects_transport w b :
  eval connected w = transport_connected w /\
  exec connected w = record CallIsConnected w /\
  eval connected (set_transport_connected b w) = b /\
  eval (connected ;; modify (set_transport_connected b) ;; connected) w = b.
Proof. split; [|split; [|split]]; reflexivity. Qed.

(** C9: [disconnect()] returns [true] and leaves the whole state, the
    transport's listeners and the call log included, as it was. *)
Theorem disconnect_returns_true_without_effect w :
  disconnect w = (true, w).
Proof. reflexivity. Qed.

(** ** Promises *)

Lemma removeAllListeners_frame event w :
  promises (exec (removeAllListeners event) w) = promises w /\
  callbacks (exec (removeAllListeners event) w) = callbacks w /\
  mapper (exec (removeAllListeners event) w) = mapper w /\
  transport_connected (exec (removeAllListeners event) w) = transport_connected w.
Proof.
  unfold removeAllListeners. destruct (category_of event) as [[]|]; repeat split.
Qed.

Lemma state_of_promises p w w' : promises w' = promises w -> state_of p w' = state_of p w.
Proof. unfold state_of. intros ->. reflexivity. Qed.

Lemma derived_of_promises p w w' : promises w' = promises w -> derived_of p w' = derived_of p w.
Proof. unfold derived_of. intros ->. reflexivity. Qed.

Lemma state_of_settle q p s w :
  state_of q (exec (settle p s) w) =
  if decide (p = q)
  then match state_of p w with Some Pending => Some s | o => o end
  else state_of q w.
Proof.
  unfold state_of, settle; simpl. case_decide; [subst q|].
  - rewrite list_lookup_alter_eq. destruct (promises w !! p) as [[[] ?]|]; reflexivity.
  - rewrite list_lookup_alter_ne by assumption. reflexivity.
Qed.

Lemma derived_of_settle q p s w : derived_of q (exec (settle p s) w) = derived_of q w.
Proof.
  unfold derived_of, settle; simpl. destruct (decide (p = q)) as [->|Hne].
  - rewrite list_lookup_alter_eq. destruct (promises w !! q) as [[[] ?]|]; reflexivity.
  - rewrite list_lookup_alter_ne by assumption. reflexivity.
Qed.

Lemma settle_frame p s w :
  listeners (exec (settle p s) w) = listeners w /\
  log (exec (settle p s) w) = log w /\
  callbacks (exec (settle p s) w) = callbacks w.
Proof. repeat split. Qed.

Lemma react_fulfilled_spec response d w :
  exec (react_fulfilled response d) w =
  exec (settle d (send_outcome response)) (record (CallValidate response) w).
Proof.
  unfold react_fulfilled, send_onFulfilled, call_validate, send_outcome.
  rewrite !exec_bind. unfold eval, exec, bind, modify, ret; simpl.
  destruct (instanceof_Error (validate response)); simpl; [reflexivity|].
  destruct (get_property response prop_result); reflexivity.
Qed.

Lemma for_each_react_fulfilled_log response ds w :
  log (exec (for_each ds (react_fulfilled response)) w) =
  log w ++ map (fun _ => CallValidate response) ds.
Proof.
  revert w. induction ds as [|d ds IH]; intros w; simpl.
  - rewrite app_nil_r. reflexivity.
  - rewrite exec_bind, IH, react_fulfilled_spec. simpl.
    rewrite <- app_assoc. reflexivity.
Qed.

Lemma for_each_react_fulfilled_frame response ds w :
  listeners (exec (for_each ds (react_fulfilled response)) w) = listeners w /\
  callbacks (exec (for_each ds (react_fulfilled response)) w) = callbacks w.
Proof.
  revert w. induction ds as [|d ds IH]; intros w; simpl; [split; reflexivity|].
  rewrite exec_bind. destruct (IH (exec (react_fulfilled response d) w)) as [-> ->].
  rewrite react_fulfilled_spec. split; reflexivity.
Qed.

Lemma for_each_react_rejected_frame reason ds w :
  listeners (exec (for_each ds (react_rejected reason)) w) = listeners w /\
  callbacks (exec (for_each ds (react_rejected reason)) w) = callbacks w /\
  log (exec (for_each ds (react_rejected reason)) w) = log w.
Proof.
  revert w. induction ds as [|d ds IH]; intros w; simpl; [repeat split|].
  rewrite exec_bind. destruct (IH (exec (react_rejected reason d) w)) as (-> & -> & ->).
  repeat split.
Qed.

Lemma state_of_record p c w : state_of p (record c w) = state_of p w.
Proof. reflexivity. Qed.

Lemma derived_of_record p c w : derived_of p (record c w) = derived_of p w.
Proof. reflexivity. Qed.

Lemma resolve_unfold p v w :
  exec (resolve p v) w =
  match state_of p w with
  | Some Pending =>
      exec (for_each (derived_of p w) (react_fulfilled v))
        (exec (settle p (Fulfilled v)) (record (CallResolve p v) w))
  | _ => record (CallResolve p v) w
  end.
Proof.
  unfold resolve. rewrite exec_bind, exec_modify.
  unfold exec at 1. rewrite state_of_record, derived_of_record.
  destruct (state_of p w) as [[]|]; reflexivity.
Qed.

Lemma reject_unfold p reason w :
  exec (reject p reason) w =
  match state_of p w with
  | Some Pending =>
      exec (for_each (derived_of p w) (react_rejected reason))
        (exec (settle p (Rejected reason)) (record (CallReject p reason) w))
  | _ => record (CallReject p reason) w
  end.
Proof.
  unfold reject. rewrite exec_bind, exec_modify.
  unfold exec at 1. rewrite state_of_record, derived_of_record.
  destruct (state_of p w) as [[]|]; reflexivity.
Qed.

Lemma resolve_log p v w :
  log (exec (resolve p v) w) =
  log w ++ CallResolve p v ::
    match state_of p w with
    | Some Pending => map (fun _ => CallValidate v) (derived_of p w)
    | _ => []
    end.
Proof.
  rewrite resolve_unfold. destruct (state_of p w) as [[]|]; try reflexivity.
  rewrite for_each_react_fulfilled_log. simpl. rewrite <- app_assoc. reflexivity.
Qed.

Lemma reject_log p reason w :
  log (exec (reject p reason) w) = log w ++ [CallReject p reason].
Proof.
  rewrite reject_unfold. destruct (state_of p w) as [[]|]; try reflexivity.
  destruct (for_each_react_rejected_frame reason (derived_of p w)
              (exec (settle p (Rejected reason)) (record (CallReject p reason) w)))
    as (_ & _ & ->). reflexivity.
Qed.

Lemma resolve_listeners p v w : listeners (exec (resolve p v) w) = listeners w.
Proof.
  rewrite resolve_unfold. destruct (state_of p w) as [[]|]; try reflexivity.
  destruct (for_each_react_fulfilled_frame v (derived_of p w)
              (exec (settle p (Fulfilled v)) (record (CallResolve p v) w))) as [-> _].
  reflexivity.
Qed.

Lemma reject_listeners p reason w : listeners (exec (reject p reason) w) = listeners w.
Proof.
  rewrite reject_unfold. destruct (state_of p w) as [[]|]; try reflexivity.
  destruct (for_each_react_rejected_frame reason (derived_of p w)
              (exec (settle p (Rejected reason)) (record (CallReject p reason) w)))
    as (-> & _ & _). reflexivity.
Qed.

(** *** The completion callback of [sendPayload] *)

Lemma sendPayload_callback_unfold pl p error response w :
  exec (sendPayload_callback pl p error response) w =
  exec (if truthy error then reject p error else resolve p response)
       (exec (removeAllListeners (payload_id pl)) w).
Proof.
  unfold sendPayload_callback. rewrite exec_bind.
  destruct (truthy error); reflexivity.
Qed.

Lemma removeAllListeners_undefined w :
  exec (removeAllListeners VUndefined) w =
  set_emitter (super_removeAllListeners VUndefined)
    (record (CallSuperRemoveAllListeners VUndefined) w).
Proof. reflexivity. Qed.

Lemma sendPayload_callback_log pl p error response w :
  log (exec (sendPayload_callback pl p error response) w) =
  log w ++ removeAllListeners_calls (payload_id pl) ++
    (if truthy error then CallReject p error else CallResolve p response) ::
    (if truthy error then []
     else match state_of p w with
          | Some Pending => map (fun _ => CallValidate response) (derived_of p w)
          | _ => []
          end).
Proof.
  rewrite sendPayload_callback_unfold.
  destruct (removeAllListeners_frame (payload_id pl) w) as (Hp & _).
  destruct (truthy error).
  - rewrite reject_log, removeAllListeners_log, <- app_assoc. reflexivity.
  - rewrite resolve_log, removeAllListeners_log, <- app_assoc.
    rewrite (state_of_promises _ _ _ Hp), (derived_of_promises _ _ _ Hp). reflexivity.
Qed.

(** *** [sendPayload] *)

Lemma eval_sendPayload pl w : eval (sendPayload pl) w = length (promises w).
Proof. reflexivity. Qed.

Lemma exec_sendPayload pl w :
  exec (sendPayload pl) w =
  set_callbacks (fun cs => cs ++ [(pl, length (promises w))])
    (record (CallConnectionSend pl (length (promises w)))
       (set_promises (fun ps => ps ++ [{| settled := Pending; derived := [] |}]) w)).
Proof. reflexivity. Qed.

Lemma state_of_new p s ds rest w w' :
  promises w' = promises w ++ {| settled := s; derived := ds |} :: rest ->
  p = length (promises w) ->
  state_of p w' = Some s /\ derived_of p w' = ds.
Proof.
  intros Hp ->. unfold state_of, derived_of. rewrite Hp.
  rewrite list_lookup_middle by reflexivity. split; reflexivity.
Qed.

Lemma transport_calls_back_new k pl p error response rest w w' :
  callbacks w' = callbacks w ++ (pl, p) :: rest ->
  k = length (callbacks w) ->
  exec (transport_calls_back k error response) w' =
  exec (sendPayload_callback pl p error response) w'.
Proof.
  intros Hc ->. unfold exec at 1, transport_calls_back.
  rewrite Hc, list_lookup_middle by reflexivity. reflexivity.
Qed.

Lemma settlements_app p (l1 l2 : list call) :
  settlements p (l1 ++ l2) = settlements p l1 ++ settlements p l2.
Proof. apply List.filter_app. Qed.

Lemma settlements_removeAllListeners_calls p event :
  settlements p (removeAllListeners_calls event) = [].
Proof.
  unfold removeAllListeners_calls. destruct (category_of event) as [[]|]; reflexivity.
Qed.

Lemma sendPayload_callback_pending pl p error response w :
  state_of p w = Some Pending ->
  derived_of p w = [] ->
  state_of p (exec (sendPayload_callback pl p error response) w) =
    Some (if truthy error then Rejected error else Fulfilled response) /\
  log (exec (sendPayload_callback pl p error response) w) =
    log w ++ removeAllListeners_calls (payload_id pl) ++
      [if truthy error then CallReject p error else CallResolve p response].
Proof.
  intros Hs Hd. split.
  - rewrite sendPayload_callback_unfold.
    destruct (removeAllListeners_frame (payload_id pl) w) as (Hp & _).
    pose proof (state_of_promises p _ _ Hp) as Hs'. rewrite Hs in Hs'.
    pose proof (derived_of_promises p _ _ Hp) as Hd'. rewrite Hd in Hd'.
    destruct (truthy error).
    + rewrite reject_unfold, Hs', Hd'. simpl for_each. rewrite exec_ret.
      rewrite state_of_settle, decide_True, state_of_record, Hs' by reflexivity.
      reflexivity.
    + rewrite resolve_unfold, Hs', Hd'. simpl for_each. rewrite exec_ret.
      rewrite state_of_settle, decide_True, state_of_record, Hs' by reflexivity.
      reflexivity.
  - rewrite sendPayload_callback_log, Hs, Hd.
    destruct (truthy error); reflexivity.
Qed.

(** C3: [sendPayload(payload)] returns a pending promise and hands the
    transport one callback, without settling the promise itself.  When the
    transport invokes that callback with a falsy error the promise is
    fulfilled with the response as it came; with a truthy error it is rejected
    with that error; and the invocation makes exactly one call of [resolve] or
    [reject] on the promise. *)
Theorem sendPayload_settles_with_callback_arguments pl error response w :
  let p := eval (sendPayload pl) w in
  let w1 := exec (sendPayload pl) w in
  let w2 := exec (transport_calls_back (length (callbacks w)) error response) w1 in
  state_of p w1 = Some Pending /\
  settlements p (drop (length (log w)) (log w1)) = [] /\
  (truthy error = false -> state_of p w2 = Some (Fulfilled response)) /\
  (truthy error = true -> state_of p w2 = Some (Rejected error)) /\
  settlements p (drop (length (log w1)) (log w2)) =
    [if truthy error then CallReject p error else CallResolve p response].
Proof.
  intros p w1 w2. subst p w1 w2. rewrite eval_sendPayload, exec_sendPayload.
  set (n := length (promises w)).
  set (w1 := set_callbacks _ _).
  assert (promises w1 = promises w ++ [{| settled := Pending; derived := [] |}]) as Hp
    by reflexivity.
  assert (callbacks w1 = callbacks w ++ [(pl, n)]) as Hc by reflexivity.
  assert (log w1 = log w ++ [CallConnectionSend pl n]) as Hl by reflexivity.
  clearbody w1.
  destruct (state_of_new n _ _ _ _ _ Hp eq_refl) as [Hs Hd].
  rewrite (transport_calls_back_new _ _ _ _ _ _ _ _ Hc eq_refl).
  destruct (sendPayload_callback_pending pl n error response w1 Hs Hd) as [Hs2 Hl2].
  rewrite Hs2, Hl2, drop_app_length, settlements_app,
    settlements_removeAllListeners_calls.
  split; [exact Hs|].
  split; [rewrite Hl, drop_app_length; reflexivity|].
  split; [intros ->; reflexivity|].
  split; [intros ->; reflexivity|].
  simpl. destruct (truthy error); simpl; rewrite Nat.eqb_refl; reflexivity.
Qed.

(** *** [send] *)

Lemma eval_new_promise w : eval new_promise w = length (promises w).
Proof. reflexivity. Qed.

Lemma exec_new_promise w :
  exec new_promise w =
  set_promises (fun ps => ps ++ [{| settled := Pending; derived := [] |}]) w.
Proof. reflexivity. Qed.

Lemma state_of_new_promise_old p s w :
  state_of p w = Some s -> state_of p (exec new_promise w) = Some s.
Proof.
  unfold state_of; rewrite exec_new_promise; simpl. intros Hs.
  destruct (promises w !! p) as [pr|] eqn:E; [|discriminate].
  rewrite (lookup_app_l_Some _ _ _ _ E). exact Hs.
Qed.

Lemma state_of_new_promise_new w :
  state_of (length (promises w)) (exec new_promise w) = Some Pending.
Proof.
  unfold state_of; rewrite exec_new_promise; simpl.
  rewrite list_lookup_middle by reflexivity. reflexivity.
Qed.

Lemma exec_then_send p w :
  exec (then_send p) w = exec (attach_reaction p (length (promises w))) (exec new_promise w).
Proof. unfold then_send. rewrite !exec_bind, eval_new_promise. reflexivity. Qed.

Lemma eval_then_send p w : eval (then_send p) w = length (promises w).
Proof. unfold then_send. rewrite !eval_bind, eval_new_promise. reflexivity. Qed.

Lemma attach_reaction_pending p d w :
  state_of p w = Some Pending ->
  exec (attach_reaction p d) w = exec (add_derived p d) w.
Proof. intros Hs. unfold exec, attach_reaction. rewrite Hs. reflexivity. Qed.

Lemma attach_reaction_fulfilled p d v w :
  state_of p w = Some (Fulfilled v) ->
  exec (attach_reaction p d) w = exec (react_fulfilled v d) w.
Proof. intros Hs. unfold exec, attach_reaction. rewrite Hs. reflexivity. Qed.

Lemma attach_reaction_rejected p d e w :
  state_of p w = Some (Rejected e) ->
  exec (attach_reaction p d) w = exec (react_rejected e d) w.
Proof. intros Hs. unfold exec, attach_reaction. rewrite Hs. reflexivity. Qed.

(** [then] on a promise that is settled already: the derived promise is
    settled at once. *)
Lemma then_send_fulfilled p v w :
  state_of p w = Some (Fulfilled v) ->
  state_of (eval (then_send p) w) (exec (then_send p) w) = Some (send_outcome v).
Proof.
  intros Hs. rewrite eval_then_send, exec_then_send.
  rewrite (attach_reaction_fulfilled _ _ v) by (apply state_of_new_promise_old, Hs).
  rewrite react_fulfilled_spec, state_of_settle, decide_True, state_of_record,
    state_of_new_promise_new by reflexivity.
  reflexivity.
Qed.

Lemma then_send_rejected p e w :
  state_of p w = Some (Rejected e) ->
  state_of (eval (then_send p) w) (exec (then_send p) w) = Some (Rejected e).
Proof.
  intros Hs. rewrite eval_then_send, exec_then_send.
  rewrite (attach_reaction_rejected _ _ e) by (apply state_of_new_promise_old, Hs).
  unfold react_rejected.
  rewrite state_of_settle, decide_True, state_of_new_promise_new by reflexivity.
  reflexivity.
Qed.

Lemma exec_call_toPayload method params w :
  exec (call_toPayload method params) w =
  set_mapper (snd (toPayload method params (mapper w))) (record (CallToPayload method params) w).
Proof.
  unfold call_toPayload, exec, bind, modify; simpl.
  destruct (toPayload method params (mapper w)); reflexivity.
Qed.

Lemma eval_call_toPayload method params w :
  eval (call_toPayload method params) w = fst (toPayload method params (mapper w)).
Proof.
  unfold call_toPayload, eval, bind, modify; simpl.
  destruct (toPayload method params (mapper w)); reflexivity.
Qed.

(** The state [send] leaves: two pending promises, the second derived from
    the first, and one callback with the transport. *)
Lemma send_spec method params w :
  let n := length (promises w) in
  let fields := fst (toPayload method params (mapper w)) in
  eval (send method params) w = S n /\
  promises (exec (send method params) w) =
    promises w ++ [{| settled := Pending; derived := [S n] |};
                   {| settled := Pending; derived := [] |}] /\
  callbacks (exec (send method params) w) = callbacks w ++ [(PObject fields, n)] /\
  log (exec (send method params) w) =
    log w ++ [CallToPayload method params; CallConnectionSend (PObject fields) n] /\
  listeners (exec (send method params) w) = listeners w.
Proof.
  intros n fields. unfold send.
  rewrite !eval_bind, !exec_bind, eval_call_toPayload, exec_call_toPayload.
  fold fields. rewrite eval_sendPayload, exec_sendPayload.
  set (wa := set_mapper _ _).
  set (wb := set_callbacks _ _).
  assert (promises wb = promises w ++ [{| settled := Pending; derived := [] |}]) as Hp
    by reflexivity.
  assert (callbacks wb = callbacks w ++ [(PObject fields, n)]) as Hc by reflexivity.
  assert (log wb = log w ++ [CallToPayload method params;
                             CallConnectionSend (PObject fields) n]) as Hl.
  { unfold wb, wa; simpl. rewrite <- app_assoc. reflexivity. }
  assert (listeners wb = listeners w) as Hls by reflexivity.
  change (length (promises wa)) with n.
  clearbody wb. clear wa.
  destruct (state_of_new n _ _ _ _ _ Hp eq_refl) as [Hs _].
  rewrite eval_then_send, exec_then_send.
  rewrite attach_reaction_pending by (apply state_of_new_promise_old, Hs).
  rewrite exec_new_promise. unfold add_derived. rewrite exec_modify. simpl.
  rewrite Hp, Hc, Hl, Hls, length_app; simpl.
  replace (length (promises w) + 1) with (S n) by (unfold n; lia).
  split; [reflexivity|]. split; [|split; [|split]]; try reflexivity.
  rewrite <- app_assoc; simpl.
  rewrite alter_app_r_alt by (unfold n; lia).
  replace (n - length (promises w)) with 0 by (unfold n; lia).
  reflexivity.
Qed.

Lemma sendPayload_callback_settles_derived pl p d error response w :
  state_of p w = Some Pending ->
  derived_of p w = [d] ->
  state_of d w = Some Pending ->
  p <> d ->
  state_of d (exec (sendPayload_callback pl p error response) w) =
    Some (if truthy error then Rejected error else send_outcome response).
Proof.
  intros Hs Hd Hsd Hne. rewrite sendPayload_callback_unfold.
  destruct (removeAllListeners_frame (payload_id pl) w) as (Hp & _).
  set (w' := exec (removeAllListeners (payload_id pl)) w) in *. clearbody w'.
  rewrite <- (state_of_promises p _ _ Hp) in Hs.
  rewrite <- (state_of_promises d _ _ Hp) in Hsd.
  rewrite <- (derived_of_promises p _ _ Hp) in Hd.
  destruct (truthy error).
  - rewrite reject_unfold, Hs, Hd. simpl for_each. rewrite exec_bind, exec_ret.
    unfold react_rejected.
    rewrite state_of_settle, decide_True, state_of_settle, decide_False,
      state_of_record, Hsd by (reflexivity || assumption).
    reflexivity.
  - rewrite resolve_unfold, Hs, Hd. simpl for_each. rewrite exec_bind, exec_ret.
    rewrite react_fulfilled_spec.
    rewrite state_of_settle, decide_True, state_of_record, state_of_settle,
      decide_False, state_of_record, Hsd by (reflexivity || assumption).
    reflexivity.
Qed.

(** The promise returned by [send], once the transport has called back. *)
Lemma send_delivery method params error response w :
  state_of (eval (send method params) w) (exec (send method params) w) = Some Pending /\
  state_of (eval (send method params) w)
    (exec (transport_calls_back (length (callbacks w)) error response)
       (exec (send method params) w)) =
  Some (if truthy error then Rejected error else send_outcome response).
Proof.
  destruct (send_spec method params w) as (He & Hp & Hc & _).
  cbv zeta in He, Hp, Hc. rewrite He.
  set (w1 := exec (send method params) w) in *. clearbody w1.
  destruct (state_of_new (length (promises w)) _ _ _ _ _ Hp eq_refl) as [Hs Hd].
  assert (state_of (S (length (promises w))) w1 = Some Pending) as Hsd.
  { unfold state_of. rewrite Hp.
    change (promises w ++ [?a; ?b]) with (promises w ++ [a] ++ [b]).
    rewrite app_assoc, list_lookup_middle; [reflexivity|].
    rewrite length_app; simpl; lia. }
  split; [exact Hsd|].
  rewrite (transport_calls_back_new _ _ _ _ _ _ _ _ Hc eq_refl).
  apply sendPayload_callback_settles_derived; auto.
Qed.

Lemma own_property_absent fields key :
  (forall v, (key, v) ∉ fields) -> own_property fields key = VUndefined.
Proof.
  induction fields as [|[k v] fields IH]; intros Hno; [reflexivity|]. simpl.
  destruct (String.eqb k key) eqn:E.
  - apply String.eqb_eq in E. subst k. destruct (Hno v). left.
  - apply IH. intros v' Hin. apply (Hno v'). right. exact Hin.
Qed.


(** C10, amended: [send] tests the validator's verdict with [instanceof Error]
    and nothing else.  An [Error] verdict rejects with that verdict.  For a
    response other than [undefined] and [null], [send] rejects if and only if
    the verdict is an [Error], and any other verdict, falsy ones included,
    fulfils with the [result] field of the response, which is [undefined] when
    the response is an object without that field.  For [undefined] or [null]
    with a verdict that is not an [Error], reading [result] throws and [send]
    rejects with that [TypeError]. *)
Theorem send_failure_test_is_instanceof_Error method params error response w :
  truthy error = false ->
  let p := eval (send method params) w in
  let w2 := exec (transport_calls_back (length (callbacks w)) error response)
              (exec (send method params) w) in
  (instanceof_Error (validate response) = true ->
   state_of p w2 = Some (Rejected (validate response))) /\
  (response <> VUndefined -> response <> VNull ->
   ((exists reason, state_of p w2 = Some (Rejected reason)) <->
    instanceof_Error (validate response) = true)) /\
  (response <> VUndefined -> response <> VNull ->
   instanceof_Error (validate response) = false ->
   exists result, get_property response prop_result = Normal result /\
                  state_of p w2 = Some (Fulfilled result)) /\
  (forall fields, response = VObject fields ->
                  (forall v, ("result", v) ∉ fields) ->
                  instanceof_Error (validate response) = false ->
                  state_of p w2 = Some (Fulfilled VUndefined)) /\
  (response = VUndefined \/ response = VNull ->
   instanceof_Error (validate response) = false ->
   state_of p w2 = Some (Rejected (TypeError_cannot_read prop_result response))).
Proof.
  intros Herr p w2. subst p w2.
  destruct (send_delivery method params error response w) as [_ Hs].
  rewrite Herr in Hs. unfold send_outcome in Hs.
  set (st := state_of _ _) in *. clearbody st.
  assert (response <> VUndefined -> response <> VNull ->
          exists result, get_property response prop_result = Normal result) as Hread.
  { intros H1 H2. destruct response; try congruence; eexists; reflexivity. }
  split; [|split; [|split; [|split]]].
  - intros Hv. rewrite Hv in Hs. exact Hs.
  - intros H1 H2. destruct (Hread H1 H2) as [result Hr]. rewrite Hr in Hs.
    destruct (instanceof_Error (validate response)).
    + split; [reflexivity|]. intros _. eexists. exact Hs.
    + split; [|discriminate]. intros [reason Hrej]. congruence.
  - intros H1 H2 Hv. destruct (Hread H1 H2) as [result Hr].
    rewrite Hv, Hr in Hs. eauto.
  - intros fields -> Hno Hv. rewrite Hv in Hs. simpl in Hs.
    rewrite (own_property_absent _ _ Hno) in Hs. exact Hs.
  - intros Hnull Hv. rewrite Hv in Hs. destruct Hnull as [-> | ->]; exact Hs.
Qed.

(** X10: a transport that answers inside [connection.send]: the callback runs
    before [then] is reached, the promise returned by [send] is settled the
    same way. *)
Lemma send_settles_when_transport_answers_at_once method params error response w :
  let run :=
    fields <- call_toPayload method params ;;
    p <- sendPayload (PObject fields) ;;
    transport_calls_back (length (callbacks w)) error response ;;
    then_send p in
  state_of (eval run w) (exec run w) =
    Some (if truthy error then Rejected error else send_outcome response).
Proof.
  intros run. subst run.
  rewrite !eval_bind, !exec_bind, eval_call_toPayload, exec_call_toPayload.
  rewrite eval_sendPayload, exec_sendPayload.
  set (fields := fst (toPayload method params (mapper w))).
  set (wa := set_mapper _ _).
  change (length (promises wa)) with (length (promises w)).
  set (n := length (promises w)).
  set (wb := set_callbacks _ _).
  assert (promises wb = promises w ++ [{| settled := Pending; derived := [] |}]) as Hp
    by reflexivity.
  assert (callbacks wb = callbacks w ++ [(PObject fields, n)]) as Hc by reflexivity.
  clearbody wb. clear wa.
  destruct (state_of_new n _ _ _ _ _ Hp eq_refl) as [Hs Hd].
  rewrite (transport_calls_back_new _ _ _ _ _ _ _ _ Hc eq_refl).
  destruct (sendPayload_callback_pending (PObject fields) n error response wb Hs Hd)
    as [Hs2 _].
  destruct (truthy error).
  - apply then_send_rejected, Hs2.
  - apply then_send_fulfilled, Hs2.
Qed.

(** *** [sendBatch] *)

Lemma hooks_called_batch_calls methods m h :
  hooks_called (batch_calls methods m h) = map (fun method => (method, m)) methods.
Proof.
  revert h. induction methods as [|r rest IH]; intros h; [reflexivity|].
  simpl. f_equal. apply IH.
Qed.

Lemma kind_of_batch_calls methods m h :
  map kind_of (batch_calls methods m h) =
  concat (map (fun _ => [HookCall; MapperCall]) methods).
Proof.
  revert h. induction methods as [|r rest IH]; intros h; [reflexivity|].
  simpl. do 2 f_equal. apply IH.
Qed.

Lemma mapper_arguments_batch_calls methods m h i method :
  methods !! i = Some method ->
  mapper_arguments (batch_calls methods m h) !! i =
    Some (rpcMethod (run_hooks (take (S i) methods) m h method),
          parameters (run_hooks (take (S i) methods) m h method)).
Proof.
  revert h i. induction methods as [|r rest IH]; intros h i Hi; [discriminate|].
  destruct i as [|i]; simpl in *.
  - injection Hi as ->. reflexivity.
  - apply (IH (beforeExecution r m h) i Hi).
Qed.

Lemma length_mapper_outputs args ms : length (mapper_outputs args ms) = length args.
Proof.
  revert ms. induction args as [|[method params] rest IH]; intros ms; [reflexivity|].
  simpl. f_equal. apply IH.
Qed.

Lemma length_mapper_arguments_batch_calls methods m h :
  length (mapper_arguments (batch_calls methods m h)) = length methods.
Proof.
  revert h. induction methods as [|r rest IH]; intros h; [reflexivity|].
  simpl. f_equal. apply IH.
Qed.

Lemma sendBatch_forEach_spec methods m entries w :
  eval (sendBatch_forEach methods m entries) w =
    entries ++ map VObject
                 (mapper_outputs (mapper_arguments (batch_calls methods m (heap w))) (mapper w)) /\
  log (exec (sendBatch_forEach methods m entries) w) =
    log w ++ batch_calls methods m (heap w) /\
  promises (exec (sendBatch_forEach methods m entries) w) = promises w /\
  callbacks (exec (sendBatch_forEach methods m entries) w) = callbacks w /\
  listeners (exec (sendBatch_forEach methods m entries) w) = listeners w.
Proof.
  revert entries w. induction methods as [|r rest IH]; intros entries w.
  - simpl. rewrite !app_nil_r. repeat split.
  - cbn [sendBatch_forEach]. rewrite !eval_bind, !exec_bind.
    set (wa := exec (call_beforeExecution r m) w).
    set (k := fun w0 => call_toPayload _ _ w0).
    assert (eval k wa = fst (toPayload (rpcMethod (heap wa r)) (parameters (heap wa r))
                               (mapper wa))) as Hk
      by (unfold k, eval; apply eval_call_toPayload).
    assert (exec k wa = set_mapper (snd (toPayload (rpcMethod (heap wa r))
                                           (parameters (heap wa r)) (mapper wa)))
                          (record (CallToPayload (rpcMethod (heap wa r))
                                     (parameters (heap wa r))) wa)) as Hx
      by (unfold k, exec; apply exec_call_toPayload).
    rewrite Hk, Hx. clear Hk Hx k.
    destruct (IH (entries ++ [VObject (fst (toPayload (rpcMethod (heap wa r))
                                              (parameters (heap wa r)) (mapper wa)))])
                (set_mapper (snd (toPayload (rpcMethod (heap wa r))
                                    (parameters (heap wa r)) (mapper wa)))
                   (record (CallToPayload (rpcMethod (heap wa r))
                              (parameters (heap wa r))) wa)))
      as (He & Hl & Hp & Hc & Hls).
    rewrite He, Hl, Hp, Hc, Hls. clear He Hl Hp Hc Hls IH.
    subst wa. simpl. rewrite <- !app_assoc. simpl. repeat split.
Qed.

Lemma sendBatch_spec methods m w :
  let n := length (promises w) in
  let calls := batch_calls methods m (heap w) in
  let entries := map VObject (mapper_outputs (mapper_arguments calls) (mapper w)) in
  eval (sendBatch methods m) w = n /\
  log (exec (sendBatch methods m) w) =
    log w ++ calls ++ [CallConnectionSend (PArray entries) n] /\
  promises (exec (sendBatch methods m) w) =
    promises w ++ [{| settled := Pending; derived := [] |}] /\
  callbacks (exec (sendBatch methods m) w) = callbacks w ++ [(PArray entries, n)].
Proof.
  intros n calls entries. unfold sendBatch.
  rewrite eval_bind, exec_bind, eval_sendPayload, exec_sendPayload.
  destruct (sendBatch_forEach_spec methods m [] w) as (He & Hl & Hp & Hc & _).
  rewrite He. simpl. rewrite Hl, Hp, Hc, <- app_assoc. repeat split.
Qed.

Lemma hooks_called_app (l1 l2 : list call) :
  hooks_called (l1 ++ l2) = hooks_called l1 ++ hooks_called l2.
Proof. apply omap_app. Qed.

Lemma mapper_arguments_app (l1 l2 : list call) :
  mapper_arguments (l1 ++ l2) = mapper_arguments l1 ++ mapper_arguments l2.
Proof. apply omap_app. Qed.

(** C2: [sendBatch(methods, moduleInstance)] on any sequence of descriptors.
    The calls it makes are, for each descriptor in input order, its
    [beforeExecution(moduleInstance)] hook and then the mapper call with the
    fields of that descriptor as the hooks run so far left them, followed by
    one [send] on the transport: every position of the sequence gets its hook
    exactly once, before it is mapped.  The array sent has one entry per
    descriptor, the mapper's outputs in input order.  The promise returned is
    fulfilled with the response as the transport delivers it, and the validator
    is not called. *)
Theorem sendBatch_runs_hooks_in_order_and_completes_raw
  methods m error response w :
  let p := eval (sendBatch methods m) w in
  let w1 := exec (sendBatch methods m) w in
  let calls := drop (length (log w)) (log w1) in
  let w2 := exec (transport_calls_back (length (callbacks w)) error response) w1 in
  hooks_called calls = map (fun method => (method, m)) methods /\
  map kind_of calls =
    concat (map (fun _ => [HookCall; MapperCall]) methods) ++ [TransportSendCall] /\
  (forall i method,
     methods !! i = Some method ->
     mapper_arguments calls !! i =
       Some (rpcMethod (run_hooks (take (S i) methods) m (heap w) method),
             parameters (run_hooks (take (S i) methods) m (heap w) method))) /\
  (exists entries,
     last calls = Some (CallConnectionSend (PArray entries) p) /\
     entries = map VObject (mapper_outputs (mapper_arguments calls) (mapper w)) /\
     length entries = length methods) /\
  state_of p w1 = Some Pending /\
  (truthy error = false -> state_of p w2 = Some (Fulfilled response)) /\
  (forall x, CallValidate x ∉ drop (length (log w)) (log w2)).
Proof.
  intros p w1 calls w2. subst p w1 calls w2.
  destruct (sendBatch_spec methods m w) as (He & Hl & Hp & Hc).
  cbv zeta in He, Hl, Hp, Hc. rewrite He.
  set (w1 := exec (sendBatch methods m) w) in *. clearbody w1.
  set (n := length (promises w)) in *.
  set (bc := batch_calls methods m (heap w)) in *.
  set (entries := map VObject (mapper_outputs (mapper_arguments bc) (mapper w))) in *.
  rewrite Hl, drop_app_length.
  assert (mapper_arguments (bc ++ [CallConnectionSend (PArray entries) n]) =
          mapper_arguments bc) as Hma
    by (rewrite mapper_arguments_app; apply app_nil_r).
  destruct (state_of_new n _ _ _ _ _ Hp eq_refl) as [Hs Hd].
  split; [|split; [|split; [|split; [|split; [|split]]]]].
  - rewrite hooks_called_app, app_nil_r. apply hooks_called_batch_calls.
  - rewrite map_app. f_equal. apply kind_of_batch_calls.
  - intros i method Hi. rewrite Hma. apply mapper_arguments_batch_calls, Hi.
  - exists entries. rewrite Hma. split; [apply last_snoc|]. split; [reflexivity|].
    unfold entries. rewrite length_map, length_mapper_outputs.
    apply length_mapper_arguments_batch_calls.
  - exact Hs.
  - intros Herr.
    rewrite (transport_calls_back_new _ _ _ _ _ _ _ _ Hc eq_refl).
    destruct (sendPayload_callback_pending (PArray entries) n error response w1 Hs Hd)
      as [-> _].
    rewrite Herr. reflexivity.
  - intros x.
    rewrite (transport_calls_back_new _ _ _ _ _ _ _ _ Hc eq_refl).
    destruct (sendPayload_callback_pending (PArray entries) n error response w1 Hs Hd)
      as [_ ->].
    rewrite Hl, <- app_assoc, drop_app_length. simpl payload_id.
    change (removeAllListeners_calls VUndefined)
      with [CallSuperRemoveAllListeners VUndefined].
    assert (forall c, c ∈ bc -> c <> CallValidate x) as Hbc.
    { unfold bc. generalize (heap w). clear.
      induction methods as [|r rest IH]; intros h c Hin; simpl in Hin.
      - apply elem_of_nil in Hin. destruct Hin.
      - apply elem_of_cons in Hin as [->|Hin]; [discriminate|].
        apply elem_of_cons in Hin as [->|Hin]; [discriminate|].
        eapply IH, Hin. }
    intros Hin. rewrite !elem_of_app in Hin.
    destruct Hin as [[Hin|Hin]|[Hin|Hin]].
    + exact (Hbc _ Hin eq_refl).
    + apply list_elem_of_singleton in Hin. discriminate.
    + apply list_elem_of_singleton in Hin. discriminate.
    + apply list_elem_of_singleton in Hin. destruct (truthy error); discriminate.
Qed.

End ProviderProperties.

(** * Further properties *)

Section ProviderExtras.

Context `{C : Collaborators}.

Implicit Types (w : world) (event : value) (ev : string) (pl : payload).

(** ** What settling promises leaves alone *)

Lemma react_fulfilled_outside response d w :
  outside_promises (exec (react_fulfilled response d) w) = outside_promises w.
Proof. rewrite react_fulfilled_spec. reflexivity. Qed.

Lemma for_each_react_fulfilled_outside response ds w :
  outside_promises (exec (for_each ds (react_fulfilled response)) w) = outside_promises w.
Proof.
  revert w. induction ds as [|d ds IH]; intros w; [reflexivity|].
  simpl. rewrite exec_bind, IH. apply react_fulfilled_outside.
Qed.

Lemma for_each_react_rejected_outside reason ds w :
  outside_promises (exec (for_each ds (react_rejected reason)) w) = outside_promises w.
Proof.
  revert w. induction ds as [|d ds IH]; intros w; [reflexivity|].
  simpl. rewrite exec_bind, IH. reflexivity.
Qed.

Lemma resolve_outside p v w :
  outside_promises (exec (resolve p v) w) = outside_promises w.
Proof.
  rewrite resolve_unfold. destruct (state_of p w) as [[]|]; try reflexivity.
  rewrite for_each_react_fulfilled_outside. reflexivity.
Qed.

Lemma reject_outside p reason w :
  outside_promises (exec (reject p reason) w) = outside_promises w.
Proof.
  rewrite reject_unfold. destruct (state_of p w) as [[]|]; try reflexivity.
  rewrite for_each_react_rejected_outside. reflexivity.
Qed.

Lemma outside_promises_fields w w' :
  outside_promises w' = outside_promises w ->
  listeners w' = listeners w /\ transport_connected w' = transport_connected w /\
  callbacks w' = callbacks w /\ bound_count w' = bound_count w /\
  emitter w' = emitter w /\ mapper w' = mapper w /\ heap w' = heap w.
Proof. unfold outside_promises. intros [= -> -> -> -> -> -> ->]. repeat split. Qed.

(** ** A callback settles its own promise only *)

Lemma state_of_for_each_react_fulfilled q response ds w :
  q ∉ ds ->
  state_of q (exec (for_each ds (react_fulfilled response)) w) = state_of q w.
Proof.
  revert w. induction ds as [|d ds IH]; intros w Hq; [reflexivity|].
  apply not_elem_of_cons in Hq as [Hne Hq].
  simpl. rewrite exec_bind, IH by exact Hq.
  rewrite react_fulfilled_spec, state_of_settle, decide_False by congruence.
  reflexivity.
Qed.

Lemma state_of_for_each_react_rejected q reason ds w :
  q ∉ ds ->
  state_of q (exec (for_each ds (react_rejected reason)) w) = state_of q w.
Proof.
  revert w. induction ds as [|d ds IH]; intros w Hq; [reflexivity|].
  apply not_elem_of_cons in Hq as [Hne Hq].
  simpl. rewrite exec_bind, IH by exact Hq.
  unfold react_rejected. rewrite state_of_settle, decide_False by congruence.
  reflexivity.
Qed.

Lemma derived_of_for_each_react_fulfilled q response ds w :
  derived_of q (exec (for_each ds (react_fulfilled response)) w) = derived_of q w.
Proof.
  revert w. induction ds as [|d ds IH]; intros w; [reflexivity|].
  simpl. rewrite exec_bind, IH, react_fulfilled_spec, derived_of_settle. reflexivity.
Qed.

Lemma derived_of_for_each_react_rejected q reason ds w :
  derived_of q (exec (for_each ds (react_rejected reason)) w) = derived_of q w.
Proof.
  revert w. induction ds as [|d ds IH]; intros w; [reflexivity|].
  simpl. rewrite exec_bind, IH. unfold react_rejected. apply derived_of_settle.
Qed.

Lemma derived_of_callback q pl p error response w :
  derived_of q (exec (sendPayload_callback pl p error response) w) = derived_of q w.
Proof.
  rewrite sendPayload_callback_unfold.
  destruct (removeAllListeners_frame (payload_id pl) w) as (Hp & _).
  rewrite <- (derived_of_promises q _ _ Hp).
  set (w' := exec (removeAllListeners (payload_id pl)) w). clearbody w'.
  destruct (truthy error).
  - rewrite reject_unfold. destruct (state_of p w') as [[]|]; try reflexivity.
    rewrite derived_of_for_each_react_rejected, derived_of_settle. reflexivity.
  - rewrite resolve_unfold. destruct (state_of p w') as [[]|]; try reflexivity.
    rewrite derived_of_for_each_react_fulfilled, derived_of_settle. reflexivity.
Qed.

Lemma state_of_callback_other q pl p error response w :
  q <> p -> q ∉ derived_of p w ->
  state_of q (exec (sendPayload_callback pl p error response) w) = state_of q w.
Proof.
  intros Hne Hq. rewrite sendPayload_callback_unfold.
  destruct (removeAllListeners_frame (payload_id pl) w) as (Hp & _).
  rewrite <- (state_of_promises q _ _ Hp).
  rewrite <- (derived_of_promises p _ _ Hp) in Hq.
  set (w' := exec (removeAllListeners (payload_id pl)) w) in *. clearbody w'.
  destruct (truthy error).
  - rewrite reject_unfold. destruct (state_of p w') as [[]|]; try reflexivity.
    rewrite state_of_for_each_react_rejected by exact Hq.
    rewrite state_of_settle, decide_False by congruence. reflexivity.
  - rewrite resolve_unfold. destruct (state_of p w') as [[]|]; try reflexivity.
    rewrite state_of_for_each_react_fulfilled by exact Hq.
    rewrite state_of_settle, decide_False by congruence. reflexivity.
Qed.

Lemma callback_outside pl p error response w :
  outside_promises (exec (sendPayload_callback pl p error response) w) =
  outside_promises (exec (removeAllListeners (payload_id pl)) w).
Proof.
  rewrite sendPayload_callback_unfold.
  destruct (truthy error); [apply reject_outside|apply resolve_outside].
Qed.

Lemma transport_calls_back_lookup k pl p error response w :
  callbacks w !! k = Some (pl, p) ->
  exec (transport_calls_back k error response) w =
  exec (sendPayload_callback pl p error response) w.
Proof. intros Hk. unfold exec at 1, transport_calls_back. rewrite Hk. reflexivity. Qed.

Lemma callbacks_callback pl p error response w :
  callbacks (exec (sendPayload_callback pl p error response) w) = callbacks w.
Proof.
  destruct (outside_promises_fields _ _ (callback_outside pl p error response w))
    as (_ & _ & -> & _).
  apply removeAllListeners_frame.
Qed.

(** ** Listeners over a whole run *)

Lemma listeners_of_same ev w w' :
  listeners w' = listeners w -> listeners_of ev w' = listeners_of ev w.
Proof. unfold listeners_of. intros ->. reflexivity. Qed.

Lemma only_bound_same w w' :
  (forall ev, listeners_of ev w' = listeners_of ev w) -> only_bound w -> only_bound w'.
Proof. intros Hsame Hb ev f Hin. rewrite Hsame in Hin. exact (Hb ev f Hin). Qed.

Lemma sendBatch_listeners methods m w :
  listeners (exec (sendBatch methods m) w) = listeners w.
Proof.
  unfold sendBatch. rewrite exec_bind, exec_sendPayload. simpl.
  apply sendBatch_forEach_spec.
Qed.

Lemma transport_calls_back_listeners_of ev k error response w :
  only_bound w ->
  listeners_of ev (exec (transport_calls_back k error response) w) = listeners_of ev w.
Proof.
  intros Hb. destruct (callbacks w !! k) as [[pl p]|] eqn:Hk.
  - rewrite (transport_calls_back_lookup _ _ _ _ _ _ Hk).
    destruct (outside_promises_fields _ _ (callback_outside pl p error response w))
      as (Hl & _).
    rewrite (listeners_of_same _ _ _ Hl). apply removeAllListeners_only_bound, Hb.
  - unfold exec, transport_calls_back. rewrite Hk. reflexivity.
Qed.

Lemma registered_handlers_bound ev n :
  map target
    ((if decide (ev = "data") then [Bound onMessage n] else []) ++
     (if decide (ev = "error") then [Bound onError (1 + n)] else []) ++
     (if decide (ev = "connect")
      then [Bound onConnect (2 + n); Bound onReady (3 + n)] else []) ++
     (if decide (ev = "end") then [Bound onClose (4 + n)] else [])) =
  registered_handlers ev.
Proof.
  unfold registered_handlers.
  repeat case_decide; subst; try congruence; reflexivity.
Qed.

Lemma perform_listeners ev o w :
  only_bound w ->
  only_bound (exec (perform o) w) /\
  emit_invokes ev (exec (perform o) w) =
    emit_invokes ev w ++
    match o with
    | OpRegisterEventListeners => registered_handlers ev
    | _ => []
    end.
Proof.
  intros Hb.
  assert (forall w', (forall ev', listeners_of ev' w' = listeners_of ev' w) ->
                     only_bound w' /\ emit_invokes ev w' = emit_invokes ev w ++ []) as Hsame.
  { intros w' Hs. split; [exact (only_bound_same _ _ Hs Hb)|].
    unfold emit_invokes. rewrite Hs, app_nil_r. reflexivity. }
  destruct o; cbn [perform].
  - split; [apply only_bound_registerEventListeners, Hb|].
    unfold emit_invokes. rewrite registerEventListeners_listeners, map_app.
    rewrite registered_handlers_bound. reflexivity.
  - apply Hsame. intros ev'. apply removeAllListeners_only_bound, Hb.
  - apply Hsame. reflexivity.
  - apply Hsame. reflexivity.
  - apply Hsame. intros ev'. rewrite exec_bind, exec_ret.
    apply listeners_of_same, send_spec.
  - apply Hsame. intros ev'. rewrite exec_bind, exec_ret.
    apply listeners_of_same, sendBatch_listeners.
  - apply Hsame. reflexivity.
  - apply Hsame. intros ev'. apply transport_calls_back_listeners_of, Hb.
Qed.

Lemma perform_all_listeners ev ops w :
  only_bound w ->
  emit_invokes ev (exec (perform_all ops) w) =
    emit_invokes ev w ++ concat (replicate (registrations ops) (registered_handlers ev)).
Proof.
  revert w. induction ops as [|o ops IH]; intros w Hb.
  - simpl. rewrite app_nil_r. reflexivity.
  - unfold perform_all in *. cbn [for_each]. rewrite exec_bind.
    destruct (perform_listeners ev o w Hb) as [Hb' He].
    rewrite (IH _ Hb'), He, <- app_assoc. f_equal.
    destruct o; reflexivity.
Qed.

(** X1: start from a transport without listeners and let any sequence of
    method calls and completion callbacks run.  An event of the transport then
    runs, in order, the handlers of one [registerEventListeners()] once for
    each time that method was called: no call of [removeAllListeners], with
    whatever token, and no callback takes a listener away, and every further
    [registerEventListeners()] adds the handlers again. *)
Theorem listeners_accumulate_over_any_run ops ev w :
  emit_invokes ev (exec (perform_all ops) (set_listeners (fun _ => ∅) w)) =
  concat (replicate (registrations ops) (registered_handlers ev)).
Proof.
  rewrite perform_all_listeners by apply only_bound_no_listeners.
  unfold emit_invokes. rewrite no_listeners. reflexivity.
Qed.

(** ** Round trips: a request and its answer *)

Lemma removeAllListeners_emitter event w :
  emitter (exec (removeAllListeners event) w) = super_removeAllListeners event (emitter w).
Proof.
  unfold removeAllListeners. destruct (category_of event) as [[]|]; reflexivity.
Qed.

Lemma callback_emitter pl p error response w :
  emitter (exec (sendPayload_callback pl p error response) w) =
  super_removeAllListeners (payload_id pl) (emitter w).
Proof.
  destruct (outside_promises_fields _ _ (callback_outside pl p error response w))
    as (_ & _ & _ & _ & -> & _).
  apply removeAllListeners_emitter.
Qed.

Lemma callback_mapper pl p error response w :
  mapper (exec (sendPayload_callback pl p error response) w) = mapper w.
Proof.
  destruct (outside_promises_fields _ _ (callback_outside pl p error response w))
    as (_ & _ & _ & _ & _ & -> & _).
  apply removeAllListeners_frame.
Qed.




Lemma sendPayload_answer pl error response w :
  let n := length (promises w) in
  let w2 := exec (sendPayload pl ;;
                  transport_calls_back (length (callbacks w)) error response) w in
  log w2 =
    log w ++ [CallConnectionSend pl n] ++ removeAllListeners_calls (payload_id pl) ++
      [if truthy error then CallReject n error else CallResolve n response] /\
  emitter w2 = super_removeAllListeners (payload_id pl) (emitter w) /\
  mapper w2 = mapper w.
Proof.
  intros n w2. subst w2. rewrite exec_bind, exec_sendPayload. fold n.
  set (w1 := set_callbacks _ _).
  assert (promises w1 = promises w ++ [{| settled := Pending; derived := [] |}]) as Hp
    by reflexivity.
  assert (callbacks w1 = callbacks w ++ [(pl, n)]) as Hc by reflexivity.
  assert (log w1 = log w ++ [CallConnectionSend pl n]) as Hl by reflexivity.
  assert (emitter w1 = emitter w) as He by reflexivity.
  assert (mapper w1 = mapper w) as Hm by reflexivity.
  clearbody w1.
  destruct (state_of_new n _ _ _ _ _ Hp eq_refl) as [Hs Hd].
  rewrite (transport_calls_back_new _ _ _ _ _ _ _ _ Hc eq_refl).
  destruct (sendPayload_callback_pending pl n error response w1 Hs Hd) as [_ ->].
  rewrite callback_emitter, callback_mapper, Hl, He, Hm, <- app_assoc.
  split; [reflexivity|]. split; reflexivity.
Qed.

(** X5: the log of [sendPayload(payload)] and its answer is the transport
    [send], the cleanup calls for [payload.id], and one [resolve] or [reject]:
    the validator and the mapper are not called.  The provider's own emitter
    went through [super.removeAllListeners(payload.id)] once. *)
Theorem sendPayload_round_trip pl error response w :
  let n := length (promises w) in
  let w2 := exec (sendPayload pl ;;
                  transport_calls_back (length (callbacks w)) error response) w in
  log w2 =
    log w ++ [CallConnectionSend pl n] ++ removeAllListeners_calls (payload_id pl) ++
      [if truthy error then CallReject n error else CallResolve n response] /\
  emitter w2 = super_removeAllListeners (payload_id pl) (emitter w) /\
  mapper w2 = mapper w.
Proof. apply sendPayload_answer. Qed.

Lemma send_outside method params w :
  emitter (exec (send method params) w) = emitter w /\
  mapper (exec (send method params) w) = snd (toPayload method params (mapper w)) /\
  transport_connected (exec (send method params) w) = transport_connected w /\
  bound_count (exec (send method params) w) = bound_count w /\
  heap (exec (send method params) w) = heap w.
Proof.
  unfold send.
  rewrite !exec_bind, eval_call_toPayload, exec_call_toPayload.
  rewrite eval_sendPayload, exec_sendPayload.
  set (wb := set_callbacks _ _).
  assert (state_of (length (promises (set_mapper (snd (toPayload method params (mapper w)))
                                        (record (CallToPayload method params) w)))) wb
          = Some Pending) as Hs.
  { unfold state_of, wb; simpl. rewrite list_lookup_middle by reflexivity. reflexivity. }
  rewrite exec_then_send, attach_reaction_pending
    by (apply state_of_new_promise_old, Hs).
  repeat split.
Qed.

Lemma send_answer method params error response w :
  let n := length (promises w) in
  let fields := fst (toPayload method params (mapper w)) in
  let w2 := exec (send method params ;;
                  transport_calls_back (length (callbacks w)) error response) w in
  log w2 =
    log w ++ [CallToPayload method params; CallConnectionSend (PObject fields) n] ++
      removeAllListeners_calls (own_property fields "id") ++
      (if truthy error then [CallReject n error]
       else [CallResolve n response; CallValidate response]) /\
  emitter w2 = super_removeAllListeners (own_property fields "id") (emitter w) /\
  mapper w2 = snd (toPayload method params (mapper w)).
Proof.
  intros n fields w2. subst w2. rewrite exec_bind.
  destruct (send_spec method params w) as (_ & Hp & Hc & Hl & _).
  destruct (send_outside method params w) as (He & Hm & _).
  cbv zeta in Hp, Hc, Hl. fold n fields in Hp, Hc, Hl.
  set (w1 := exec (send method params) w) in *. clearbody w1.
  destruct (state_of_new n _ _ _ _ _ Hp eq_refl) as [Hs Hd].
  rewrite (transport_calls_back_new _ _ _ _ _ _ _ _ Hc eq_refl).
  rewrite sendPayload_callback_log, callback_emitter, callback_mapper.
  rewrite Hs, Hd, Hl, He, Hm, <- app_assoc. simpl payload_id.
  split; [|split; reflexivity].
  destruct (truthy error); reflexivity.
Qed.

(** X6: the log of [send(method, parameters)] and its answer: one mapper call
    with the arguments as given, the transport [send] of the object the mapper
    returned, the cleanup calls for the [id] of that object, then [reject], or
    [resolve] followed by one validator call on the response.  The own emitter
    went through [super.removeAllListeners] with that [id], and the mapper
    advanced by one call. *)
Theorem send_round_trip method params error response w :
  let n := length (promises w) in
  let fields := fst (toPayload method params (mapper w)) in
  let w2 := exec (send method params ;;
                  transport_calls_back (length (callbacks w)) error response) w in
  log w2 =
    log w ++ [CallToPayload method params; CallConnectionSend (PObject fields) n] ++
      removeAllListeners_calls (own_property fields "id") ++
      (if truthy error then [CallReject n error]
       else [CallResolve n response; CallValidate response]) /\
  emitter w2 = super_removeAllListeners (own_property fields "id") (emitter w) /\
  mapper w2 = snd (toPayload method params (mapper w)).
Proof. apply send_answer. Qed.

Lemma sendBatch_forEach_outside methods m entries w :
  emitter (exec (sendBatch_forEach methods m entries) w) = emitter w /\
  transport_connected (exec (sendBatch_forEach methods m entries) w) = transport_connected w /\
  bound_count (exec (sendBatch_forEach methods m entries) w) = bound_count w.
Proof.
  revert entries w. induction methods as [|r rest IH]; intros entries w.
  - repeat split.
  - cbn [sendBatch_forEach]. rewrite !exec_bind.
    set (wa := exec (call_beforeExecution r m) w).
    set (k := fun w0 => call_toPayload _ _ w0).
    assert (exec k wa = set_mapper (snd (toPayload (rpcMethod (heap wa r))
                                           (parameters (heap wa r)) (mapper wa)))
                          (record (CallToPayload (rpcMethod (heap wa r))
                                     (parameters (heap wa r))) wa)) as Hx
      by (unfold k, exec; apply exec_call_toPayload).
    rewrite Hx.
    destruct (IH (entries ++ [VObject (eval k wa)])
                (set_mapper (snd (toPayload (rpcMethod (heap wa r))
                                    (parameters (heap wa r)) (mapper wa)))
                   (record (CallToPayload (rpcMethod (heap wa r))
                              (parameters (heap wa r))) wa)))
      as (-> & -> & ->).
    repeat split.
Qed.

(** X7: the log of [sendBatch(methods, moduleInstance)] and its answer: the
    hook and mapper calls, the transport [send] of the array, then
    [super.removeAllListeners(undefined)] and one [resolve] or [reject].  The
    ids of the entries are never used for cleanup: the own emitter went
    through [super.removeAllListeners(undefined)] and nothing else. *)
Theorem sendBatch_round_trip methods m error response w :
  let n := length (promises w) in
  let calls := batch_calls methods m (heap w) in
  let entries := map VObject (mapper_outputs (mapper_arguments calls) (mapper w)) in
  let w2 := exec (sendBatch methods m ;;
                  transport_calls_back (length (callbacks w)) error response) w in
  log w2 =
    log w ++ calls ++
      [CallConnectionSend (PArray entries) n;
       CallSuperRemoveAllListeners VUndefined;
       if truthy error then CallReject n error else CallResolve n response] /\
  emitter w2 = super_removeAllListeners VUndefined (emitter w).
Proof.
  intros n calls entries w2. subst w2. rewrite exec_bind.
  destruct (sendBatch_spec methods m w) as (_ & Hl & Hp & Hc).
  assert (emitter (exec (sendBatch methods m) w) = emitter w) as He.
  { unfold sendBatch. rewrite exec_bind, exec_sendPayload. simpl.
    apply sendBatch_forEach_outside. }
  cbv zeta in Hp, Hc, Hl. fold n calls entries in Hp, Hc, Hl.
  set (w1 := exec (sendBatch methods m) w) in *. clearbody w1.
  destruct (state_of_new n _ _ _ _ _ Hp eq_refl) as [Hs Hd].
  rewrite (transport_calls_back_new _ _ _ _ _ _ _ _ Hc eq_refl).
  destruct (sendPayload_callback_pending (PArray entries) n error response w1 Hs Hd)
    as [_ ->].
  rewrite callback_emitter, Hl, He, <- !app_assoc. simpl payload_id.
  split; reflexivity.
Qed.

(** ** Errors of the transport, answers out of turn *)

Lemma removeAllListeners_calls_no_validate event x :
  CallValidate x ∉ removeAllListeners_calls event.
Proof.
  unfold removeAllListeners_calls. intros Hin.
  destruct (category_of event) as [[]|]; simpl in Hin;
    repeat (apply elem_of_cons in Hin as [Hin|Hin]; [discriminate|]);
    apply elem_of_nil in Hin; exact Hin.
Qed.

(** X4: when the transport reports an error to the callback of a [send], the
    promise returned by [send] is rejected with that error as it is, and the
    validator is not called. *)
Theorem send_propagates_transport_error method params error response w :
  truthy error = true ->
  let p := eval (send method params) w in
  let w2 := exec (send method params ;;
                  transport_calls_back (length (callbacks w)) error response) w in
  state_of p w2 = Some (Rejected error) /\
  (forall x, CallValidate x ∉ drop (length (log w)) (log w2)).
Proof.
  intros Herr p w2. subst p w2.
  destruct (send_delivery method params error response w) as [_ Hs].
  destruct (send_answer method params error response w) as (Hl & _).
  cbv zeta in Hl. rewrite exec_bind in *. rewrite Herr in Hs, Hl.
  split; [exact Hs|]. intros x. rewrite Hl, drop_app_length.
  intros Hin.
  apply elem_of_cons in Hin as [Hin|Hin]; [discriminate|].
  apply elem_of_cons in Hin as [Hin|Hin]; [discriminate|].
  apply elem_of_app in Hin as [Hin|Hin].
  - exact (removeAllListeners_calls_no_validate _ _ Hin).
  - apply list_elem_of_singleton in Hin. discriminate.
Qed.

Lemma callback_settles_own pl p error response w :
  state_of p w = Some Pending ->
  p ∉ derived_of p w ->
  state_of p (exec (sendPayload_callback pl p error response) w) =
    Some (if truthy error then Rejected error else Fulfilled response).
Proof.
  intros Hs Hd. rewrite sendPayload_callback_unfold.
  destruct (removeAllListeners_frame (payload_id pl) w) as (Hp & _).
  rewrite <- (state_of_promises p _ _ Hp) in Hs.
  rewrite <- (derived_of_promises p _ _ Hp) in Hd.
  set (w' := exec (removeAllListeners (payload_id pl)) w) in *. clearbody w'.
  destruct (truthy error).
  - rewrite reject_unfold, Hs, state_of_for_each_react_rejected by exact Hd.
    rewrite state_of_settle, decide_True, state_of_record, Hs by reflexivity.
    reflexivity.
  - rewrite resolve_unfold, Hs, state_of_for_each_react_fulfilled by exact Hd.
    rewrite state_of_settle, decide_True, state_of_record, Hs by reflexivity.
    reflexivity.
Qed.

Lemma callback_on_settled pl p error response s w :
  state_of p w = Some s -> s <> Pending ->
  promises (exec (sendPayload_callback pl p error response) w) = promises w /\
  log (exec (sendPayload_callback pl p error response) w) =
    log w ++ removeAllListeners_calls (payload_id pl) ++
      [if truthy error then CallReject p error else CallResolve p response].
Proof.
  intros Hs Hne. split.
  - rewrite sendPayload_callback_unfold.
    destruct (removeAllListeners_frame (payload_id pl) w) as (Hp & _).
    rewrite <- (state_of_promises p _ _ Hp) in Hs. rewrite <- Hp.
    set (w' := exec (removeAllListeners (payload_id pl)) w) in *. clearbody w'.
    destruct (truthy error).
    + rewrite reject_unfold, Hs. destruct s; [congruence|reflexivity|reflexivity].
    + rewrite resolve_unfold, Hs. destruct s; [congruence|reflexivity|reflexivity].
  - rewrite sendPayload_callback_log, Hs.
    destruct (truthy error); [reflexivity|].
    destruct s; [congruence|reflexivity|reflexivity].
Qed.

(** X3: a transport that invokes the callback of a [send] a second time.  The
    second invocation changes no promise, so the promise returned by [send]
    keeps the outcome of the first answer, and it does not call the validator;
    it does repeat the cleanup calls and calls [resolve] or [reject] again. *)
Theorem send_keeps_first_answer method params error1 response1 error2 response2 w :
  let k := length (callbacks w) in
  let n := length (promises w) in
  let fields := fst (toPayload method params (mapper w)) in
  let w2 := exec (send method params ;; transport_calls_back k error1 response1) w in
  let w3 := exec (transport_calls_back k error2 response2) w2 in
  promises w3 = promises w2 /\
  log w3 = log w2 ++ removeAllListeners_calls (own_property fields "id") ++
             [if truthy error2 then CallReject n error2 else CallResolve n response2].
Proof.
  intros k n fields w2 w3. subst w2 w3. rewrite exec_bind.
  destruct (send_spec method params w) as (_ & Hp & Hc & _).
  cbv zeta in Hp, Hc. fold n fields k in Hp, Hc.
  set (w1 := exec (send method params) w) in *. clearbody w1.
  destruct (state_of_new n _ _ _ _ _ Hp eq_refl) as [Hs Hd].
  assert (callbacks w1 !! k = Some (PObject fields, n)) as Hk
    by (rewrite Hc; apply list_lookup_middle; reflexivity).
  rewrite (transport_calls_back_lookup _ _ _ _ _ _ Hk).
  set (w2 := exec (sendPayload_callback (PObject fields) n error1 response1) w1).
  assert (callbacks w2 !! k = Some (PObject fields, n)) as Hk2
    by (unfold w2; rewrite callbacks_callback; exact Hk).
  assert (state_of n w2 =
          Some (if truthy error1 then Rejected error1 else Fulfilled response1)) as Hs2.
  { apply callback_settles_own; [exact Hs|]. rewrite Hd.
    intros Hin. apply list_elem_of_singleton in Hin. lia. }
  clearbody w2.
  rewrite (transport_calls_back_lookup _ _ _ _ _ _ Hk2).
  apply (callback_on_settled (PObject fields) n error2 response2 _ w2 Hs2).
  destruct (truthy error1); discriminate.
Qed.

Lemma promise_at (l1 l2 : list promise) x p w :
  promises w = l1 ++ x :: l2 -> p = length l1 ->
  state_of p w = Some (settled x) /\ derived_of p w = derived x.
Proof.
  intros Hp ->. unfold state_of, derived_of.
  rewrite Hp, list_lookup_middle by reflexivity. split; reflexivity.
Qed.

Lemma two_requests_independent pA dA pB dB plA plB eA rA eB rB w :
  state_of pA w = Some Pending -> derived_of pA w = [dA] -> state_of dA w = Some Pending ->
  state_of pB w = Some Pending -> derived_of pB w = [dB] -> state_of dB w = Some Pending ->
  pA <> dA -> pB <> dB -> pB <> pA -> pB <> dA -> dB <> pA -> dB <> dA ->
  state_of dA (exec (sendPayload_callback plB pB eB rB)
                 (exec (sendPayload_callback plA pA eA rA) w)) =
    Some (if truthy eA then Rejected eA else send_outcome rA) /\
  state_of dB (exec (sendPayload_callback plB pB eB rB)
                 (exec (sendPayload_callback plA pA eA rA) w)) =
    Some (if truthy eB then Rejected eB else send_outcome rB).
Proof.
  intros HsA HdA HsdA HsB HdB HsdB N1 N2 N3 N4 N5 N6.
  assert (dB ∉ derived_of pA w) as HnB
    by (rewrite HdA; intros Hin; apply list_elem_of_singleton in Hin; congruence).
  assert (pB ∉ derived_of pA w) as HnpB
    by (rewrite HdA; intros Hin; apply list_elem_of_singleton in Hin; congruence).
  pose proof (sendPayload_callback_settles_derived plA pA dA eA rA w HsA HdA HsdA N1) as HA.
  pose proof (state_of_callback_other pB plA pA eA rA w N3 HnpB) as HsB'.
  pose proof (state_of_callback_other dB plA pA eA rA w N5 HnB) as HsdB'.
  pose proof (derived_of_callback pB plA pA eA rA w) as HdB'.
  rewrite HsB in HsB'. rewrite HsdB in HsdB'. rewrite HdB in HdB'.
  set (w1 := exec (sendPayload_callback plA pA eA rA) w) in *. clearbody w1.
  split.
  - rewrite state_of_callback_other; [exact HA|congruence|].
    rewrite HdB'. intros Hin. apply list_elem_of_singleton in Hin. congruence.
  - apply sendPayload_callback_settles_derived; assumption.
Qed.

(** X2: two [send] calls outstanding at the same time.  Whether the transport
    answers them in the order they were sent or the other way round, each
    promise is settled from the answer given to its own callback. *)
Theorem concurrent_sends_settle_independently
  method1 params1 method2 params2 error1 response1 error2 response2 w :
  let k := length (callbacks w) in
  let p1 := eval (send method1 params1) w in
  let w1 := exec (send method1 params1) w in
  let p2 := eval (send method2 params2) w1 in
  let w2 := exec (send method2 params2) w1 in
  let in_turn := exec (transport_calls_back k error1 response1 ;;
                       transport_calls_back (S k) error2 response2) w2 in
  let out_of_turn := exec (transport_calls_back (S k) error2 response2 ;;
                           transport_calls_back k error1 response1) w2 in
  p1 <> p2 /\
  state_of p1 in_turn = Some (if truthy error1 then Rejected error1 else send_outcome response1) /\
  state_of p2 in_turn = Some (if truthy error2 then Rejected error2 else send_outcome response2) /\
  state_of p1 out_of_turn = Some (if truthy error1 then Rejected error1 else send_outcome response1) /\
  state_of p2 out_of_turn = Some (if truthy error2 then Rejected error2 else send_outcome response2).
Proof.
  intros k p1 w1 p2 w2 in_turn out_of_turn.
  subst in_turn out_of_turn w2 p2 p1.
  destruct (send_spec method1 params1 w) as (He1 & Hp1 & Hc1 & _).
  cbv zeta in He1, Hp1, Hc1. fold w1 in He1, Hp1, Hc1 |- *. fold k in Hc1.
  destruct (send_spec method2 params2 w1) as (He2 & Hp2 & Hc2 & _).
  cbv zeta in He2, Hp2, Hc2. rewrite He1, He2.
  set (w2 := exec (send method2 params2) w1) in *.
  clearbody w2.
  assert (length (promises w1) = S (S (length (promises w)))) as Hlen
    by (rewrite Hp1, length_app; simpl; lia).
  rewrite Hlen in *. rewrite Hp1 in Hp2. rewrite Hc1 in Hc2. clearbody w1.
  set (n := length (promises w)) in *.
  set (pl1 := PObject (fst (toPayload method1 params1 (mapper w)))) in *.
  set (pl2 := PObject (fst (toPayload method2 params2 (mapper w1)))) in *.
  clearbody pl1 pl2. clear Hp1 Hc1 He1 He2 Hlen.
  destruct (promise_at (promises w) _ _ n w2
              ltac:(rewrite Hp2, <- app_assoc; reflexivity) eq_refl) as [HsA HdA].
  destruct (promise_at (promises w ++ [{| settled := Pending; derived := [S n] |}]) _ _
              (S n) w2 ltac:(rewrite Hp2, <- !app_assoc; reflexivity)
              ltac:(rewrite length_app; simpl; unfold n; lia)) as [HsdA _].
  destruct (promise_at (promises w ++ [{| settled := Pending; derived := [S n] |};
                                       {| settled := Pending; derived := [] |}]) _ _
              (S (S n)) w2 ltac:(rewrite Hp2; reflexivity)
              ltac:(rewrite length_app; simpl; unfold n; lia)) as [HsB HdB].
  destruct (promise_at (promises w ++ [{| settled := Pending; derived := [S n] |};
                                       {| settled := Pending; derived := [] |};
                                       {| settled := Pending; derived := [S (S (S n))] |}])
              _ _ (S (S (S n))) w2 ltac:(rewrite Hp2, <- !app_assoc; reflexivity)
              ltac:(rewrite length_app; simpl; unfold n; lia)) as [HsdB _].
  simpl in HsA, HdA, HsdA, HsB, HdB, HsdB.
  assert (callbacks w2 !! k = Some (pl1, n)) as Hk1
    by (rewrite Hc2, <- app_assoc; apply list_lookup_middle; reflexivity).
  assert (callbacks w2 !! S k = Some (pl2, S (S n))) as Hk2
    by (rewrite Hc2; apply list_lookup_middle; rewrite length_app; simpl; unfold k; lia).
  split; [lia|].
  rewrite !exec_bind.
  rewrite (transport_calls_back_lookup _ _ _ _ _ _ Hk1).
  rewrite (transport_calls_back_lookup _ _ _ _ _ _ Hk2).
  rewrite (transport_calls_back_lookup (S k) pl2 (S (S n)))
    by (rewrite callbacks_callback; exact Hk2).
  rewrite (transport_calls_back_lookup k pl1 n)
    by (rewrite callbacks_callback; exact Hk1).
  destruct (two_requests_independent n (S n) (S (S n)) (S (S (S n))) pl1 pl2
              error1 response1 error2 response2 w2) as [HA HB]; try assumption; try lia.
  destruct (two_requests_independent (S (S n)) (S (S (S n))) n (S n) pl2 pl1
              error2 response2 error1 response1 w2) as [HB' HA']; try assumption; try lia.
  repeat split; assumption.
Qed.

(** ** The calls on the transport's listener registry *)

(** X8: with five distinct category tokens, the transport call made for each
    token: the message token names [data] and [onMessage], the error token
    [error] and [onError], the connect token [connect] and [onConnect], the
    ready token [connect] and [onConnect] as well, the close token [end] and
    [onClose]; each is followed by the superclass call with the token. *)
Theorem removeAllListeners_dispatch w :
  NoDup category_tokens ->
  log (exec (removeAllListeners (VStr SOCKET_MESSAGE)) w) =
    log w ++ [CallRemoveListener "data" (Method onMessage);
              CallSuperRemoveAllListeners (VStr SOCKET_MESSAGE)] /\
  log (exec (removeAllListeners (VStr SOCKET_ERROR)) w) =
    log w ++ [CallRemoveListener "error" (Method onError);
              CallSuperRemoveAllListeners (VStr SOCKET_ERROR)] /\
  log (exec (removeAllListeners (VStr SOCKET_CONNECT)) w) =
    log w ++ [CallRemoveListener "connect" (Method onConnect);
              CallSuperRemoveAllListeners (VStr SOCKET_CONNECT)] /\
  log (exec (removeAllListeners (VStr SOCKET_READY)) w) =
    log w ++ [CallRemoveListener "connect" (Method onConnect);
              CallSuperRemoveAllListeners (VStr SOCKET_READY)] /\
  log (exec (removeAllListeners (VStr SOCKET_CLOSE)) w) =
    log w ++ [CallRemoveListener "end" (Method onClose);
              CallSuperRemoveAllListeners (VStr SOCKET_CLOSE)].
Proof.
  unfold category_tokens. intros Hnd.
  repeat match goal with
         | H : NoDup (_ :: _) |- _ =>
             let Hn := fresh "Hn" in
             apply NoDup_cons in H as [Hn H];
             rewrite ?not_elem_of_cons in Hn
         end.
  rewrite !removeAllListeners_log. unfold removeAllListeners_calls, category_of.
  cbn [strict_eq_string]. rewrite !String.eqb_refl.
  assert (forall a b : string, a <> b -> String.eqb a b = false) as Hneq
    by (intros a b; apply String.eqb_neq).
  assert (forall a b : string, a <> b -> String.eqb b a = false) as Hneq'
    by (intros a b Hab; apply String.eqb_neq; congruence).
  destruct Hn as (? & ? & ? & ? & _). destruct Hn0 as (? & ? & ? & _).
  destruct Hn1 as (? & ? & _). destruct Hn2 as (? & _).
  rewrite ?(Hneq' SOCKET_MESSAGE SOCKET_ERROR), ?(Hneq' SOCKET_MESSAGE SOCKET_CONNECT),
    ?(Hneq' SOCKET_MESSAGE SOCKET_READY), ?(Hneq' SOCKET_MESSAGE SOCKET_CLOSE),
    ?(Hneq' SOCKET_ERROR SOCKET_CONNECT), ?(Hneq' SOCKET_ERROR SOCKET_READY),
    ?(Hneq' SOCKET_ERROR SOCKET_CLOSE), ?(Hneq' SOCKET_CONNECT SOCKET_READY),
    ?(Hneq' SOCKET_CONNECT SOCKET_CLOSE), ?(Hneq' SOCKET_READY SOCKET_CLOSE)
    by assumption.
  repeat split.
Qed.

Lemma removeAllListeners_calls_shape event :
  Forall listener_call_shape (removeAllListeners_calls event).
Proof.
  unfold removeAllListeners_calls.
  destruct (category_of event) as [[]|]; simpl;
    repeat (apply Forall_cons; split; [simpl; try exact I; set_solver|]);
    apply Forall_nil_2.
Qed.

Lemma batch_calls_shape methods m h :
  Forall listener_call_shape (batch_calls methods m h).
Proof.
  revert h. induction methods as [|r rest IH]; intros h; simpl.
  - apply Forall_nil_2.
  - apply Forall_cons; split; [exact I|]. apply Forall_cons; split; [exact I|]. apply IH.
Qed.

Lemma perform_log_shape o w :
  exists calls, log (exec (perform o) w) = log w ++ calls /\
                Forall listener_call_shape calls.
Proof.
  destruct o; cbn [perform].
  - eexists. split; [apply registerEventListeners_log|].
    repeat (apply Forall_cons; split; [simpl; eauto|]). apply Forall_nil_2.
  - eexists. split; [apply removeAllListeners_log|]. apply removeAllListeners_calls_shape.
  - exists []. split; [symmetry; apply app_nil_r|apply Forall_nil_2].
  - exists [CallIsConnected]. split; [reflexivity|].
    apply Forall_cons; split; [exact I|apply Forall_nil_2].
  - eexists. split; [rewrite exec_bind, exec_ret; apply send_spec|].
    repeat (apply Forall_cons; split; [exact I|]). apply Forall_nil_2.
  - eexists. split; [rewrite exec_bind, exec_ret; apply sendBatch_spec|].
    apply Forall_app; split; [apply batch_calls_shape|].
    apply Forall_cons; split; [exact I|apply Forall_nil_2].
  - eexists. split; [reflexivity|].
    apply Forall_cons; split; [exact I|apply Forall_nil_2].
  - destruct (callbacks w !! k) as [[pl p]|] eqn:Hk.
    + rewrite (transport_calls_back_lookup _ _ _ _ _ _ Hk).
      eexists. split; [apply sendPayload_callback_log|].
      apply Forall_app; split; [apply removeAllListeners_calls_shape|].
      apply Forall_cons; split; [destruct (truthy error); exact I|].
      destruct (truthy error); [apply Forall_nil_2|].
      destruct (state_of p w) as [[]|]; try apply Forall_nil_2.
      apply Forall_forall. intros c Hin. apply list_elem_of_fmap in Hin as (? & -> & _).
      exact I.
    + exists []. split; [|apply Forall_nil_2].
      unfold exec, transport_calls_back. rewrite Hk. symmetry; apply app_nil_r.
Qed.

Lemma perform_all_log_shape ops w :
  exists calls, log (exec (perform_all ops) w) = log w ++ calls /\
                Forall listener_call_shape calls.
Proof.
  revert w. induction ops as [|o ops IH]; intros w.
  - exists []. split; [symmetry; apply app_nil_r|apply Forall_nil_2].
  - unfold perform_all in *. cbn [for_each]. rewrite exec_bind.
    destruct (perform_log_shape o w) as (c1 & Hl1 & Hf1).
    destruct (IH (exec (perform o) w)) as (c2 & Hl2 & Hf2).
    exists (c1 ++ c2). split; [rewrite Hl2, Hl1, app_assoc; reflexivity|].
    apply Forall_app; split; assumption.
Qed.

(** X9: over any sequence of method calls and completion callbacks, every
    function the provider passes to [on] is one made by [bind], and every
    function it passes to [removeListener] is one of the methods [onMessage],
    [onError], [onConnect], [onClose] themselves.  So no function is ever both
    registered and asked to be removed, and the ready handler is never asked
    to be removed. *)
Theorem registered_and_removed_functions_never_meet ops w :
  let calls := drop (length (log w)) (log (exec (perform_all ops) w)) in
  Forall listener_call_shape calls /\
  (forall ev f ev' f',
     CallOn ev f ∈ calls -> CallRemoveListener ev' f' ∈ calls -> f <> f') /\
  (forall ev f, CallRemoveListener ev f ∈ calls -> target f <> onReady).
Proof.
  intros calls. subst calls.
  destruct (perform_all_log_shape ops w) as (calls & -> & Hf).
  rewrite drop_app_length. split; [exact Hf|].
  rewrite Forall_forall in Hf. split.
  - intros ev f ev' f' Hon Hrm ->.
    apply Hf in Hon. apply Hf in Hrm. simpl in Hon, Hrm.
    destruct Hon as (h & n & ->).
    repeat (apply elem_of_cons in Hrm as [Hrm|Hrm]; [discriminate|]).
    apply elem_of_nil in Hrm. exact Hrm.
  - intros ev f Hrm. apply Hf in Hrm. simpl in Hrm.
    repeat (apply elem_of_cons in Hrm as [[= -> ->]|Hrm]; [discriminate|]).
    apply elem_of_nil in Hrm. destruct Hrm.
Qed.

(** X11: [send], [sendBatch] and [sendPayload] themselves leave the
    transport's listeners, what it reports as connected and the provider's own
    emitter as they were; the cleanup happens in the callback only. *)
Theorem sending_leaves_listeners_alone method params methods m pl w :
  (listeners (exec (send method params) w) = listeners w /\
   emitter (exec (send method params) w) = emitter w /\
   transport_connected (exec (send method params) w) = transport_connected w) /\
  (listeners (exec (sendBatch methods m) w) = listeners w /\
   emitter (exec (sendBatch methods m) w) = emitter w /\
   transport_connected (exec (sendBatch methods m) w) = transport_connected w) /\
  (listeners (exec (sendPayload pl) w) = listeners w /\
   emitter (exec (sendPayload pl) w) = emitter w /\
   transport_connected (exec (sendPayload pl) w) = transport_connected w).
Proof.
  split; [|split].
  - destruct (send_outside method params w) as (He & _ & Ht & _).
    split; [apply send_spec|]. split; assumption.
  - split; [apply sendBatch_listeners|].
    unfold sendBatch. rewrite exec_bind, exec_sendPayload. simpl.
    destruct (sendBatch_forEach_outside methods m [] w) as (He & Ht & _).
    split; assumption.
  - repeat split.
Qed.

(** ** Descriptors and request ids *)

Lemma sendBatch_forEach_heap methods m entries w :
  heap (exec (sendBatch_forEach methods m entries) w) = run_hooks methods m (heap w).
Proof.
  revert entries w. induction methods as [|r rest IH]; intros entries w; [reflexivity|].
  cbn [sendBatch_forEach]. rewrite !exec_bind.
  set (wa := exec (call_beforeExecution r m) w).
  set (k := fun w0 => call_toPayload _ _ w0).
  assert (exec k wa = set_mapper (snd (toPayload (rpcMethod (heap wa r))
                                         (parameters (heap wa r)) (mapper wa)))
                        (record (CallToPayload (rpcMethod (heap wa r))
                                   (parameters (heap wa r))) wa)) as Hx
    by (unfold k, exec; apply exec_call_toPayload).
  rewrite Hx, IH. reflexivity.
Qed.

(** X12: [sendBatch] changes the descriptors through their hooks and in no
    other way: afterwards they are what the hooks of the sequence, run first
    to last with the module instance, made of them; with an empty sequence
    they are untouched.  The answer of the transport does not change them. *)
Theorem sendBatch_leaves_descriptors_as_hooked methods m error response w :
  heap (exec (sendBatch methods m) w) = run_hooks methods m (heap w) /\
  heap (exec (sendBatch [] m) w) = heap w /\
  heap (exec (sendBatch methods m ;;
              transport_calls_back (length (callbacks w)) error response) w) =
    run_hooks methods m (heap w).
Proof.
  assert (heap (exec (sendBatch methods m) w) = run_hooks methods m (heap w)) as Hh.
  { unfold sendBatch. rewrite exec_bind, exec_sendPayload. simpl.
    apply sendBatch_forEach_heap. }
  split; [exact Hh|]. split; [reflexivity|].
  rewrite exec_bind.
  destruct (callbacks (exec (sendBatch methods m) w) !! length (callbacks w))
    as [[pl p]|] eqn:Hk.
  - rewrite (transport_calls_back_lookup _ _ _ _ _ _ Hk).
    destruct (outside_promises_fields _ _
                (callback_outside pl p error response (exec (sendBatch methods m) w)))
      as (_ & _ & _ & _ & _ & _ & ->).
    rewrite <- Hh. unfold removeAllListeners.
    destruct (category_of (payload_id pl)) as [[]|]; reflexivity.
  - unfold exec at 1, transport_calls_back. rewrite Hk. exact Hh.
Qed.

(** X13: a payload whose [id] is not a primitive string (a number, as the
    mapper's ids, or no [id] at all).  The callback of [sendPayload] then makes
    no call on the transport: its calls are [super.removeAllListeners(id)] and
    one [resolve] or [reject], and the transport's listeners are unchanged,
    whatever they are. *)
Theorem callback_with_non_string_id_spares_transport pl error response w :
  (forall s, payload_id pl <> VStr s) ->
  let n := length (promises w) in
  let w2 := exec (sendPayload pl ;;
                  transport_calls_back (length (callbacks w)) error response) w in
  log w2 = log w ++ [CallConnectionSend pl n;
                     CallSuperRemoveAllListeners (payload_id pl);
                     if truthy error then CallReject n error else CallResolve n response] /\
  listeners w2 = listeners w.
Proof.
  intros Hid n w2. subst w2.
  assert (category_of (payload_id pl) = None) as Hc.
  { apply category_of_None. intros t _. apply Hid. }
  destruct (sendPayload_answer pl error response w) as (Hl & _).
  cbv zeta in Hl. fold n in Hl. rewrite Hl.
  unfold removeAllListeners_calls. rewrite Hc. split; [reflexivity|].
  rewrite exec_bind, exec_sendPayload. fold n.
  set (w1 := set_callbacks _ _).
  assert (callbacks w1 = callbacks w ++ [(pl, n)]) as Hcb by reflexivity.
  assert (listeners w1 = listeners w) as Hls by reflexivity.
  clearbody w1.
  rewrite (transport_calls_back_new _ _ _ _ _ _ _ _ Hcb eq_refl).
  destruct (outside_promises_fields _ _ (callback_outside pl n error response w1))
    as (-> & _).
  unfold removeAllListeners. rewrite Hc. exact Hls.
Qed.

End ProviderExtras.

(** * The theorems at concrete inputs *)

#[local] Existing Instance Demo.C.
Import Demo.

(** [registerEventListeners()] on a fresh transport does not bind [close]. *)
Lemma registerEventListeners_binds_one_handler_per_category_witness :
  ("close" ∉ ["data"; "error"; "connect"; "end"]) /\
  listeners_of "close" (exec registerEventListeners w0) = listeners_of "close" w0.
Proof.
  assert ("close" ∉ ["data"; "error"; "connect"; "end"]) as Hne.
  { intros Hin. repeat (apply elem_of_cons in Hin as [Hin|Hin]; [discriminate|]).
    apply elem_of_nil in Hin. exact Hin. }
  split; [exact Hne|].
  exact (proj1 (proj2 (proj2 (proj2 (proj2
           (registerEventListeners_binds_one_handler_per_category w0))))) "close" Hne).
Defined.

(** A request id is not a category token. *)
Lemma removeAllListeners_unrecognized_token_witness :
  (forall t, t ∈ category_tokens -> VNum 7 <> VStr t) /\
  log (exec (removeAllListeners (VNum 7)) w0) = [CallSuperRemoveAllListeners (VNum 7)].
Proof.
  assert (forall t, t ∈ category_tokens -> VNum 7 <> VStr t) as Hne
    by (intros t _; discriminate).
  split; [exact Hne|].
  exact (proj1 (proj2 (proj2 (proj2 (proj2
           (removeAllListeners_unrecognized_token (VNum 7) w0 Hne)))))).
Defined.

(** The two branches of the callback of [sendPayload]. *)
Lemma sendPayload_settles_with_callback_arguments_witness :
  (truthy VNull = false /\
   state_of 0 (exec (transport_calls_back 0 VNull balance_response)
                 (exec (sendPayload balance_request) w0)) =
     Some (Fulfilled balance_response)) /\
  (truthy connection_lost = true /\
   state_of 0 (exec (transport_calls_back 0 connection_lost VUndefined)
                 (exec (sendPayload balance_request) w0)) =
     Some (Rejected connection_lost)).
Proof.
  split; (split; [reflexivity|]).
  - exact (proj1 (proj2 (proj2
             (sendPayload_settles_with_callback_arguments
                balance_request VNull balance_response w0))) eq_refl).
  - exact (proj1 (proj2 (proj2 (proj2
             (sendPayload_settles_with_callback_arguments
                balance_request connection_lost VUndefined w0)))) eq_refl).
Defined.




(** A batch that names the first descriptor twice. *)
Lemma sendBatch_runs_hooks_in_order_and_completes_raw_witness :
  [0; 1; 0] !! 2 = Some 0 /\
  truthy VNull = false /\
  mapper_arguments (drop (length (log w0)) (log (exec (sendBatch [0; 1; 0] "latest") w0))) !! 2 =
    Some ("eth_getBalance", [VStr "0xabc"; VStr "latest"; VStr "latest"]) /\
  state_of 0 (exec (transport_calls_back 0 VNull (VArray [VNum 1; VNum 2; VNum 3]))
                (exec (sendBatch [0; 1; 0] "latest") w0)) =
    Some (Fulfilled (VArray [VNum 1; VNum 2; VNum 3])).
Proof.
  split; [reflexivity|]. split; [reflexivity|]. split.
  - exact (proj1 (proj2 (proj2
             (sendBatch_runs_hooks_in_order_and_completes_raw
                [0; 1; 0] "latest" VNull (VArray [VNum 1; VNum 2; VNum 3]) w0)))
             2 0 eq_refl).
  - exact (proj1 (proj2 (proj2 (proj2 (proj2 (proj2
             (sendBatch_runs_hooks_in_order_and_completes_raw
                [0; 1; 0] "latest" VNull (VArray [VNum 1; VNum 2; VNum 3]) w0))))))
             eq_refl).
Defined.

(** The five parts of the amended C10, each at an input that meets its
    hypotheses: an [Error] verdict; a response with a result; a falsy verdict
    on an object without [result]; an accepting verdict on [undefined]. *)
Lemma send_failure_test_is_instanceof_Error_witness :
  (truthy VNull = false /\
   instanceof_Error (validator node_error_response) = true /\
   state_of 1 (exec (transport_calls_back 0 VNull node_error_response)
                 (exec (send "eth_getBalance" [VStr "0xabc"]) w0)) =
     Some (Rejected (validator node_error_response))) /\
  (balance_response <> VUndefined /\ balance_response <> VNull /\
   ((exists reason,
        state_of 1 (exec (transport_calls_back 0 VNull balance_response)
                      (exec (send "eth_getBalance" [VStr "0xabc"]) w0)) =
          Some (Rejected reason)) <->
    instanceof_Error (validator balance_response) = true)) /\
  (instanceof_Error (validator balance_response) = false /\
   exists result,
     get_property balance_response prop_result = Normal result /\
     state_of 1 (exec (transport_calls_back 0 VNull balance_response)
                   (exec (send "eth_getBalance" [VStr "0xabc"]) w0)) =
       Some (Fulfilled result)) /\
  ((forall v, ("result", v) ∉ [("id", VNum 0)]) /\
   instanceof_Error (answer_false (VObject [("id", VNum 0)])) = false /\
   state_of 1 (exec (C := collaborators answer_false)
                 (transport_calls_back 0 VNull (VObject [("id", VNum 0)]))
                 (exec (send "eth_getBalance" [VStr "0xabc"]) (initial answer_false))) =
     Some (Fulfilled VUndefined)) /\
  (instanceof_Error (accept_all VUndefined) = false /\
   state_of 1 (exec (C := collaborators accept_all)
                 (transport_calls_back 0 VNull VUndefined)
                 (exec (send "eth_getBalance" [VStr "0xabc"]) (initial accept_all))) =
     Some (Rejected (TypeError_cannot_read prop_result VUndefined))).
Proof.
  assert (balance_response <> VUndefined) as H1 by discriminate.
  assert (balance_response <> VNull) as H2 by discriminate.
  assert (forall v, ("result", v) ∉ [("id", VNum 0)]) as Hno.
  { intros v Hin. apply elem_of_cons in Hin as [Hin|Hin]; [discriminate|].
    apply elem_of_nil in Hin. exact Hin. }
  split; [|split; [|split; [|split]]].
  - split; [reflexivity|]. split; [reflexivity|].
    exact (proj1 (send_failure_test_is_instanceof_Error
                    "eth_getBalance" [VStr "0xabc"] VNull node_error_response w0 eq_refl)
             eq_refl).
  - split; [exact H1|]. split; [exact H2|].
    exact (proj1 (proj2 (send_failure_test_is_instanceof_Error
                           "eth_getBalance" [VStr "0xabc"] VNull balance_response w0 eq_refl))
             H1 H2).
  - split; [reflexivity|].
    exact (proj1 (proj2 (proj2 (send_failure_test_is_instanceof_Error
                                  "eth_getBalance" [VStr "0xabc"] VNull balance_response w0
                                  eq_refl)))
             H1 H2 eq_refl).
  - split; [exact Hno|]. split; [reflexivity|].
    exact (proj1 (proj2 (proj2 (proj2
             (send_failure_test_is_instanceof_Error (C := collaborators answer_false)
                "eth_getBalance" [VStr "0xabc"] VNull (VObject [("id", VNum 0)])
                (initial answer_false) eq_refl))))
             [("id", VNum 0)] eq_refl Hno eq_refl).
  - split; [reflexivity|].
    exact (proj2 (proj2 (proj2 (proj2
             (send_failure_test_is_instanceof_Error (C := collaborators accept_all)
                "eth_getBalance" [VStr "0xabc"] VNull VUndefined
                (initial accept_all) eq_refl))))
             (or_introl eq_refl) eq_refl).
Defined.

(** C10 as stated fails: the transport answers [undefined], the validator's
    verdict is [true], not an [Error], and [send] rejects all the same, with
    the [TypeError] of reading [result] off [undefined]. *)
Lemma send_rejects_although_verdict_is_not_an_Error :
  instanceof_Error (accept_all VUndefined) = false /\
  state_of 1 (exec (C := collaborators accept_all)
                (transport_calls_back 0 VNull VUndefined)
                (exec (send "eth_getBalance" [VStr "0xabc"]) (initial accept_all))) =
    Some (Rejected (VError "TypeError" "Cannot read property 'result' of undefined")) /\
  ~ ((exists reason,
        state_of 1 (exec (C := collaborators accept_all)
                      (transport_calls_back 0 VNull VUndefined)
                      (exec (send "eth_getBalance" [VStr "0xabc"]) (initial accept_all))) =
          Some (Rejected reason)) <->
     instanceof_Error (accept_all VUndefined) = true).
Proof.
  split; [reflexivity|]. split; [reflexivity|].
  intros [Hrej _].
  assert (instanceof_Error (accept_all VUndefined) = true) as Habs
    by (apply Hrej; eexists; reflexivity).
  discriminate Habs.
Qed.

(** ** The scenarios of the specification, run *)

(** After [registerEventListeners()] and [removeAllListeners('socket_close')]
    the transport still holds the close listener made by [bind]. *)
Example close_listener_survives_removal :
  listeners_of "end" (exec (registerEventListeners ;;
                            removeAllListeners (VStr "socket_close")) w0) =
    [Bound onClose 4] /\
  log (exec (registerEventListeners ;; removeAllListeners (VStr "socket_close")) w0) =
    [CallOn "data" (Bound onMessage 0); CallOn "error" (Bound onError 1);
     CallOn "connect" (Bound onConnect 2); CallOn "connect" (Bound onReady 3);
     CallOn "end" (Bound onClose 4);
     CallRemoveListener "end" (Method onClose);
     CallSuperRemoveAllListeners (VStr "socket_close")].
Proof. split; reflexivity. Qed.

(** The case of the ready token asks the transport to remove the connect
    method. *)
Example ready_token_names_connect_handler :
  removeAllListeners_calls (VStr "socket_ready") =
    [CallRemoveListener "connect" (Method onConnect);
     CallSuperRemoveAllListeners (VStr "socket_ready")].
Proof. reflexivity. Qed.

(** [send('eth_getBalance', ['0xabc'])] answered with [{id: 0, result: '0x10'}]. *)
Example send_scenario :
  log (exec (send "eth_getBalance" [VStr "0xabc"] ;;
             transport_calls_back 0 VNull balance_response) w0) =
    [CallToPayload "eth_getBalance" [VStr "0xabc"];
     CallConnectionSend balance_request 0;
     CallSuperRemoveAllListeners (VNum 0);
     CallResolve 0 balance_response;
     CallValidate balance_response].
Proof. reflexivity. Qed.

(** [sendBatch([methodA, methodB], module)]. *)
Example sendBatch_scenario :
  log (exec (sendBatch [0; 1] "latest" ;;
             transport_calls_back 0 VNull (VArray [VObject [("result", VNum 1)];
                                                   VObject [("result", VNum 2)]])) w0) =
    [CallBeforeExecution 0 "latest";
     CallToPayload "eth_getBalance" [VStr "0xabc"; VStr "latest"];
     CallBeforeExecution 1 "latest";
     CallToPayload "eth_getCode" [VStr "0xdef"; VStr "latest"];
     CallConnectionSend
       (PArray [VObject [("jsonrpc", VStr "2.0"); ("id", VNum 0);
                         ("method", VStr "eth_getBalance");
                         ("params", VArray [VStr "0xabc"; VStr "latest"])];
                VObject [("jsonrpc", VStr "2.0"); ("id", VNum 1);
                         ("method", VStr "eth_getCode");
                         ("params", VArray [VStr "0xdef"; VStr "latest"])]]) 0;
     CallSuperRemoveAllListeners VUndefined;
     CallResolve 0 (VArray [VObject [("result", VNum 1)]; VObject [("result", VNum 2)]])].
Proof. reflexivity. Qed.

(** ** The further properties at concrete inputs *)

(** A lost connection reported to the callback of a [send]. *)
Lemma send_propagates_transport_error_witness :
  truthy connection_lost = true /\
  state_of 1 (exec (send "eth_getBalance" [VStr "0xabc"] ;;
                    transport_calls_back 0 connection_lost VUndefined) w0) =
    Some (Rejected connection_lost).
Proof.
  split; [reflexivity|].
  exact (proj1 (send_propagates_transport_error
                  "eth_getBalance" [VStr "0xabc"] connection_lost VUndefined w0 eq_refl)).
Defined.

(** The tokens of the demo are distinct; the ready token names [onConnect]. *)
Lemma removeAllListeners_dispatch_witness :
  NoDup (category_tokens (C := Demo.C)) /\
  log (exec (removeAllListeners (VStr "socket_ready")) w0) =
    [CallRemoveListener "connect" (Method onConnect);
     CallSuperRemoveAllListeners (VStr "socket_ready")].
Proof.
  assert (NoDup (category_tokens (C := Demo.C))) as Hnd
    by (apply (bool_decide_unpack _); vm_compute; exact I).
  split; [exact Hnd|].
  exact (proj1 (proj2 (proj2 (proj2 (removeAllListeners_dispatch w0 Hnd))))).
Defined.

(** Registration followed by the removal of the close category: the function
    registered on [end] and the function asked to be removed differ. *)
Lemma registered_and_removed_functions_never_meet_witness :
  let calls :=
    drop (length (log w0))
      (log (exec (perform_all [OpRegisterEventListeners;
                               OpRemoveAllListeners (VStr "socket_close")]) w0)) in
  CallOn "end" (Bound onClose 4) ∈ calls /\
  CallRemoveListener "end" (Method onClose) ∈ calls /\
  Bound onClose 4 <> Method onClose /\
  target (Method onClose) <> onReady.
Proof.
  intros calls.
  assert (CallOn "end" (Bound onClose 4) ∈ calls) as Hon
    by (apply list_elem_of_In; vm_compute; tauto).
  assert (CallRemoveListener "end" (Method onClose) ∈ calls) as Hrm
    by (apply list_elem_of_In; vm_compute; tauto).
  split; [exact Hon|]. split; [exact Hrm|]. split.
  - exact (proj1 (proj2 (registered_and_removed_functions_never_meet
                           [OpRegisterEventListeners;
                            OpRemoveAllListeners (VStr "socket_close")] w0))
             "end" (Bound onClose 4) "end" (Method onClose) Hon Hrm).
  - exact (proj2 (proj2 (registered_and_removed_functions_never_meet
                           [OpRegisterEventListeners;
                            OpRemoveAllListeners (VStr "socket_close")] w0))
             "end" (Method onClose) Hrm).
Defined.

(** Two registrations, with removals and a request in between: a [connect]
    event runs four handlers. *)
Example connect_runs_every_registration :
  emit_invokes "connect"
    (exec (perform_all [OpRegisterEventListeners;
                        OpRemoveAllListeners (VStr "socket_connect");
                        OpRemoveAllListeners (VStr "socket_ready");
                        OpSend "eth_getBalance" [VStr "0xabc"];
                        OpTransportCallsBack 0 VNull balance_response;
                        OpRegisterEventListeners]) w0) =
    [onConnect; onReady; onConnect; onReady].
Proof. reflexivity. Qed.

(** The mapper's ids are numbers. *)
Lemma callback_with_non_string_id_spares_transport_witness :
  (forall s, payload_id balance_request <> VStr s) /\
  log (exec (sendPayload balance_request ;;
             transport_calls_back 0 VNull balance_response) w0) =
    [CallConnectionSend balance_request 0;
     CallSuperRemoveAllListeners (VNum 0);
     CallResolve 0 balance_response].
Proof.
  assert (forall s, payload_id balance_request <> VStr s) as Hid
    by (intros s; discriminate).
  split; [exact Hid|].
  exact (proj1 (callback_with_non_string_id_spares_transport
                  balance_request VNull balance_response w0 Hid)).
Defined.
